(** * Artworks table: pagination, selection and cross-page "select N rows"

    A shallow embedding of [src/App.tsx].  The component keeps eight pieces
    of [useState] state; its handlers and effects only ever call the state
    setters, so each of them is embedded as a function from the rendered
    state to the list of setter calls it makes, in source order.  A small
    model of the render/effect cycle (dependency arrays included) then
    replays those calls the way the runtime does.

    Numbers are JavaScript numbers in the source, that is binary64
    floating-point values.  Every number the component stores is an
    integer (offsets, page sizes, counts, ids), so the state cells are
    embedded as [Z].  The two quotients the code takes,
    [Math.floor(a / b)] and [Math.ceil(a / b)], are not integers before
    [floor] and [ceil] apply: the division is embedded with its rounding
    to 53 significant bits, and its results live in [num], which adds the
    two infinities and NaN for a zero divisor.  Sums and differences are
    taken in [Z]: they are exact in the source as well as long as they
    stay below [2 ^ 53] in magnitude. *)

From stdpp Require Import gmap list strings.
From Stdlib Require Import ZArith Lia.

Local Open Scope Z_scope.
Set Warnings "-clear-no-such-hyp".

(** ** JavaScript quotients *)

Module JsNum.

Inductive num : Type :=
| Fin (z : Z)
| PInf
| NInf
| NaN.

(** [a / b] for integers with [b = 0]. *)
Definition div_by_zero (a : Z) : num :=
  if 0 <? a then PInf else if a <? 0 then NInf else NaN.

(** A finite binary64 value [m * 2 ^ e], as the pair [(m, e)]. *)
Definition binary64 : Type := (Z * Z)%type.

(** [n / d >= 2 ^ k], for positive [n] and [d]. *)
Definition ge_pow2 (n d k : Z) : bool :=
  if 0 <=? k then d * 2 ^ k <=? n else d <=? n * 2 ^ (- k).

(** The binary exponent of [n / d]: the [k] with
    [2 ^ k <= n / d < 2 ^ (k + 1)]. *)
Definition ilog2 (n d : Z) : Z :=
  let l := Z.log2 n - Z.log2 d in
  if ge_pow2 n d l then l else l - 1.

(** [N / D] rounded to the nearest integer, ties to the even one. *)
Definition roundHalfEven (N D : Z) : Z :=
  let q := N / D in
  match 2 * (N mod D) ?= D with
  | Lt => q
  | Gt => q + 1
  | Eq => if Z.even q then q else q + 1
  end.

(** The binary64 quotient of two non-negative integers: the exact
    quotient [n / d] is scaled so that it lies between [2 ^ 52] and
    [2 ^ 53] and rounded there to an integer mantissa.  A quotient of two
    integers held in binary64 never overflows, and where it is subnormal
    (below [2 ^ -1022]) it is below 1 and not 0 with either precision,
    so the exponent is left unbounded. *)
Definition quotMag (n d : Z) : binary64 :=
  if n =? 0 then (0, 0)
  else
    let e := ilog2 n d - 52 in
    (if 0 <=? e then roundHalfEven n (d * 2 ^ e)
     else roundHalfEven (n * 2 ^ (- e)) d, e).

(** [a / b] for a non-zero [b]: rounding is symmetric in the sign. *)
Definition divD (a b : Z) : binary64 :=
  let '(m, e) := quotMag (Z.abs a) (Z.abs b) in
  (Z.sgn a * Z.sgn b * m, e).

(** [Math.floor] of a finite value. *)
Definition floorD (v : binary64) : Z :=
  let '(m, e) := v in
  if 0 <=? e then m * 2 ^ e else m / 2 ^ (- e).

(** [Math.ceil] of a finite value. *)
Definition ceilD (v : binary64) : Z :=
  let '(m, e) := v in - floorD (- m, e).

(** [Math.floor(a / b)]. *)
Definition floor_div (a b : Z) : num :=
  if b =? 0 then div_by_zero a else Fin (floorD (divD a b)).

(** [Math.ceil(a / b)]. *)
Definition ceil_div (a b : Z) : num :=
  if b =? 0 then div_by_zero a else Fin (ceilD (divD a b)).

(** An integer rounded to the nearest binary64 value, itself an
    integer. *)
Definition roundInt (z : Z) : Z := floorD (divD z 1).

(** [x + 1]: the exact sum, rounded. *)
Definition succ (x : num) : num :=
  match x with
  | Fin z => Fin (roundInt (z + 1))
  | other => other
  end.

(** [x < y]; any comparison with NaN is false. *)
Definition ltb (x y : num) : bool :=
  match x, y with
  | NaN, _ | _, NaN => false
  | Fin a, Fin b => a <? b
  | _, NInf => false
  | NInf, _ => true
  | PInf, _ => false
  | Fin _, PInf => true
  end.

(** [x <= y]. *)
Definition leb (x y : num) : bool :=
  match x, y with
  | NaN, _ | _, NaN => false
  | Fin a, Fin b => a <=? b
  | NInf, _ => true
  | _, PInf => true
  | _, NInf => false
  | PInf, Fin _ => false
  end.

(** [x >= y]. *)
Definition geb (x y : num) : bool := leb y x.

End JsNum.

Import JsNum.

(** ** Data model *)

(** [interface Artwork]. *)
Record Artwork : Type := mkArtwork {
  id : Z;
  title : string;
  artist_title : option string;
}.

(** [ApiResponse.pagination]; a field the server left out is [None]. *)
Record Pagination : Type := mkPagination {
  total : option Z;
  current_page : option Z;
  total_pages : option Z;
  limit : option Z;
}.

(** [interface ApiResponse], as decoded from the response body. *)
Record ApiResponse : Type := mkApiResponse {
  resp_data : option (list Artwork);
  pagination : option Pagination;
}.

(** What [await fetch(..)] followed by [await res.json()] can yield: a
    decoded body, or an exception (transport or decode error) that the
    [catch] block receives. *)
Inductive FetchOutcome : Type :=
| Resolved (json : ApiResponse)
| Rejected.

(** The [useState] cells of [App]. *)
Record State : Type := mkState {
  data : list Artwork;
  totalRecords : Z;
  first : Z;
  rows : Z;
  selected : gset Z;
  selectCount : Z;
  remainingToSelect : Z;
  isSelecting : bool;
}.

(** State on mount: the initial values passed to [useState]. *)
Definition initialState : State :=
  {| data := []; totalRecords := 0; first := 0; rows := 10; selected := ∅;
     selectCount := 0; remainingToSelect := 0; isSelecting := false |}.

(** ** Setter calls *)

(** One call of a state setter.  [setFirst] and [setRemainingToSelect] are
    also called with an updater function [prev => ..], so they carry a
    function of the queued value; a plain value [v] is the constant
    function. *)
Inductive Update : Type :=
| SetData (d : list Artwork)
| SetTotalRecords (n : Z)
| SetFirst (f : Z → Z)
| SetRows (n : Z)
| SetSelected (s : gset Z)
| SetSelectCount (n : Z)
| SetRemainingToSelect (f : Z → Z)
| SetIsSelecting (b : bool).

Definition value (v : Z) : Z → Z := λ _, v.

Definition apply_update (st : State) (u : Update) : State :=
  match u with
  | SetData d =>
      {| data := d; totalRecords := totalRecords st; first := first st;
         rows := rows st; selected := selected st;
         selectCount := selectCount st;
         remainingToSelect := remainingToSelect st;
         isSelecting := isSelecting st |}
  | SetTotalRecords n =>
      {| data := data st; totalRecords := n; first := first st;
         rows := rows st; selected := selected st;
         selectCount := selectCount st;
         remainingToSelect := remainingToSelect st;
         isSelecting := isSelecting st |}
  | SetFirst f =>
      {| data := data st; totalRecords := totalRecords st;
         first := f (first st);
         rows := rows st; selected := selected st;
         selectCount := selectCount st;
         remainingToSelect := remainingToSelect st;
         isSelecting := isSelecting st |}
  | SetRows n =>
      {| data := data st; totalRecords := totalRecords st; first := first st;
         rows := n; selected := selected st;
         selectCount := selectCount st;
         remainingToSelect := remainingToSelect st;
         isSelecting := isSelecting st |}
  | SetSelected s =>
      {| data := data st; totalRecords := totalRecords st; first := first st;
         rows := rows st; selected := s;
         selectCount := selectCount st;
         remainingToSelect := remainingToSelect st;
         isSelecting := isSelecting st |}
  | SetSelectCount n =>
      {| data := data st; totalRecords := totalRecords st; first := first st;
         rows := rows st; selected := selected st;
         selectCount := n;
         remainingToSelect := remainingToSelect st;
         isSelecting := isSelecting st |}
  | SetRemainingToSelect f =>
      {| data := data st; totalRecords := totalRecords st; first := first st;
         rows := rows st; selected := selected st;
         selectCount := selectCount st;
         remainingToSelect := f (remainingToSelect st);
         isSelecting := isSelecting st |}
  | SetIsSelecting b =>
      {| data := data st; totalRecords := totalRecords st; first := first st;
         rows := rows st; selected := selected st;
         selectCount := selectCount st;
         remainingToSelect := remainingToSelect st;
         isSelecting := b |}
  end.

(** The queued setter calls are applied in the order they were made. *)
Definition apply_updates (ups : list Update) (st : State) : State :=
  fold_left apply_update ups st.

(** ** Page arithmetic *)

(** [Math.floor(first / rows) + 1] (lines 58, 127, 143, 150). *)
Definition toPage (offset size : Z) : num := succ (floor_div offset size).

Definition currentPage (st : State) : num := toPage (first st) (rows st).

(** [Math.ceil(totalRecords / rows)] (lines 128, 146). *)
Definition totalPages (st : State) : num :=
  ceil_div (totalRecords st) (rows st).

(** ** [fetchData]: what happens when the awaited response settles *)

(** [json.data || []]. *)
Definition data_or_empty (json : ApiResponse) : list Artwork :=
  match resp_data json with
  | Some d => d
  | None => []
  end.

(** [json.pagination?.total || 100]: the fallback is taken when
    [pagination] is missing, when [total] is missing, and when [total] is
    falsy, that is [0]. *)
Definition total_or_100 (json : ApiResponse) : Z :=
  match pagination json with
  | Some p =>
      match total p with
      | Some t => if t =? 0 then 100 else t
      | None => 100
      end
  | None => 100
  end.

(** Lines 41-54.  On an exception the [catch] block only logs. *)
Definition fetchData_settle (out : FetchOutcome) : list Update :=
  match out with
  | Resolved json =>
      [SetData (data_or_empty json); SetTotalRecords (total_or_100 json)]
  | Rejected => []
  end.

(** ** Event handlers *)

(** [toggleSelect] (lines 63-71). *)
Definition toggleSelect (i : Z) (st : State) : list Update :=
  let newSet := selected st in
  if bool_decide (i ∈ newSet)
  then [SetSelected (newSet ∖ {[i]})]
  else [SetSelected ({[i]} ∪ newSet)].

(** [data.length > 0 && data.every(item => selected.has(item.id))]. *)
Definition allSelected (st : State) : bool :=
  (0 <? Z.of_nat (length (data st)))
  && forallb (λ item, bool_decide (id item ∈ selected st)) (data st).

(** [toggleSelectAll] (lines 74-86). *)
Definition toggleSelectAll (st : State) : list Update :=
  let newSet := selected st in
  if allSelected st
  then [SetSelected (fold_left (λ s item, s ∖ {[id item]}) (data st) newSet)]
  else [SetSelected (fold_left (λ s item, {[id item]} ∪ s) (data st) newSet)].

(** The "Clear" button (line 205). *)
Definition clearSelection (st : State) : list Update := [SetSelected ∅].

(** [handleSelectN] (lines 93-103).  Hiding the overlay panel touches no
    state cell. *)
Definition handleSelectN (st : State) : list Update :=
  if selectCount st <=? 0 then []
  else [SetRemainingToSelect (value (selectCount st));
        SetIsSelecting true;
        SetSelectCount 0].

(** [PaginatorPageChangeEvent]: the two fields the handler reads. *)
Record PageChangeEvent : Type := mkPageChangeEvent {
  e_first : Z;
  e_rows : Z;
}.

(** The guard of [handlePageChange] (line 151). *)
Definition pageChangeAccepted (e : PageChangeEvent) (st : State) : bool :=
  let newPage := toPage (e_first e) (e_rows e) in
  geb newPage (Fin 1) && leb newPage (totalPages st).

(** [handlePageChange] (lines 149-155). *)
Definition handlePageChange (e : PageChangeEvent) (st : State) : list Update :=
  if pageChangeAccepted e st
  then [SetFirst (value (e_first e)); SetRows (e_rows e)]
  else [].

(** The rows-per-page [select] (lines 265-268). *)
Definition handleRowsPerPage (n : Z) (st : State) : list Update :=
  [SetRows n; SetFirst (value 0)].

(** ** The cross-page selection effect *)

(** The [for .. of] loop of lines 113-119, with its [break]. *)
Fixpoint selectLoop (items : list Artwork) (remaining : Z)
    (newSet : gset Z) (selectedInThisPage : Z) : gset Z * Z :=
  match items with
  | [] => (newSet, selectedInThisPage)
  | item :: rest =>
      if remaining <=? selectedInThisPage then (newSet, selectedInThisPage)
      else if bool_decide (id item ∈ newSet)
      then selectLoop rest remaining newSet selectedInThisPage
      else selectLoop rest remaining ({[id item]} ∪ newSet)
             (selectedInThisPage + 1)
  end.

(** The effect body (lines 107-139). *)
Definition selectionEffect (st : State) : list Update :=
  if negb (isSelecting st) || (remainingToSelect st <=? 0) then []
  else
    let '(newSet, selectedInThisPage) :=
      selectLoop (data st) (remainingToSelect st) (selected st) 0 in
    [SetSelected newSet;
     SetRemainingToSelect (λ prev, prev - selectedInThisPage)]
    ++ (if (selectedInThisPage <? remainingToSelect st)
           && (0 <? Z.of_nat (length (data st)))
        then
          if ltb (currentPage st) (totalPages st)
          then [SetFirst (λ prev, prev + rows st)]
          else [SetIsSelecting false]
        else if remainingToSelect st <=? selectedInThisPage
        then [SetIsSelecting false]
        else []).

(** ** The render/effect cycle *)

(** A request sent by [fetchData]: the [page] and [limit] query
    parameters.  Its position in the log of issued requests is the order
    of issue. *)
Record Request : Type := mkRequest {
  req_page : num;
  req_limit : Z;
}.

(** The running component: the state of the last committed render, the
    setter calls queued since, and the log of requests issued so far. *)
Record Sys : Type := mkSys {
  rendered : State;
  pending : list Update;
  issued : list Request;
}.

(** [setData] and [setSelected] are only ever called with a freshly built
    array or [Set], which never is the object already stored, so a
    dependency on [data] or [selected] has changed exactly when the
    setter was called. *)
Definition setsData (ups : list Update) : bool :=
  existsb (λ u, match u with SetData _ => true | _ => false end) ups.

Definition setsSelected (ups : list Update) : bool :=
  existsb (λ u, match u with SetSelected _ => true | _ => false end) ups.

(** Dependency array [[first, rows]] of the fetch effect (line 60). *)
Definition fetchDepsChanged (old new : State) : bool :=
  negb (first old =? first new) || negb (rows old =? rows new).

(** Dependency array of the selection effect (line 140):
    [[data, first, isSelecting, remainingToSelect, rows, selected,
    totalRecords]]. *)
Definition selectionDepsChanged (ups : list Update) (old new : State) : bool :=
  setsData ups
  || negb (first old =? first new)
  || negb (eqb (isSelecting old) (isSelecting new))
  || negb (remainingToSelect old =? remainingToSelect new)
  || negb (rows old =? rows new)
  || setsSelected ups
  || negb (totalRecords old =? totalRecords new).

(** The fetch effect (lines 57-60) sends one request; the response
    settles later, as an event of its own. *)
Definition fetchEffect (st : State) : Request :=
  {| req_page := currentPage st; req_limit := rows st |}.

(** One commit: the queued setter calls are applied, the component
    re-renders, and the effects whose dependencies changed run in
    declaration order on the state just rendered.  The setter calls of
    the selection effect become the next queue. *)
Definition commit (sys : Sys) : Sys :=
  let old := rendered sys in
  let new := apply_updates (pending sys) old in
  {| rendered := new;
     pending :=
       if selectionDepsChanged (pending sys) old new
       then selectionEffect new else [];
     issued :=
       issued sys
       ++ (if fetchDepsChanged old new then [fetchEffect new] else []) |}.

(** The first render: every effect runs once. *)
Definition mount : Sys :=
  {| rendered := initialState;
     pending := selectionEffect initialState;
     issued := [fetchEffect initialState] |}.

(** What can happen to a mounted component.  [Settled seq out] is the
    response to the request issued [seq]-th (counting from 0) settling
    with [out]; the component has no notion of [seq] and [step] does not
    look at it. *)
Inductive Event : Type :=
| ToggleRow (i : Z)
| ToggleAll
| Clear
| InputCount (v : option Z)
| Apply
| PageChange (e : PageChangeEvent)
| RowsPerPage (n : Z)
| Settled (seq : nat) (out : FetchOutcome)
| Commit.

Definition enqueue (ups : list Update) (sys : Sys) : Sys :=
  {| rendered := rendered sys;
     pending := pending sys ++ ups;
     issued := issued sys |}.

(** The count input is declared with [min={1}] and [max={rows}] (lines
    184-185).  The widget is a library component whose code is not part
    of the repository; it is taken by its declared props: whatever is
    typed, the value it hands to [onValueChange] is [null] or lies
    between [min] and [max], the lower limit being checked first. *)
Definition countInputValue (st : State) (typed : option Z) : option Z :=
  match typed with
  | None => None
  | Some n =>
      Some (if n <? 1 then 1 else if rows st <? n then rows st else n)
  end.

(** [e.value || 0] of the count input (line 183). *)
Definition value_or_0 (v : option Z) : Z :=
  match v with
  | Some n => n
  | None => 0
  end.

Definition step (sys : Sys) (ev : Event) : Sys :=
  match ev with
  | ToggleRow i => enqueue (toggleSelect i (rendered sys)) sys
  | ToggleAll => enqueue (toggleSelectAll (rendered sys)) sys
  | Clear => enqueue (clearSelection (rendered sys)) sys
  | InputCount v =>
      enqueue
        [SetSelectCount (value_or_0 (countInputValue (rendered sys) v))] sys
  | Apply => enqueue (handleSelectN (rendered sys)) sys
  | PageChange e => enqueue (handlePageChange e (rendered sys)) sys
  | RowsPerPage n => enqueue (handleRowsPerPage n (rendered sys)) sys
  | Settled _ out => enqueue (fetchData_settle out) sys
  | Commit => commit sys
  end.

Definition run (evs : list Event) (sys : Sys) : Sys := fold_left step evs sys.

(** Commit until no setter call is queued.  The selection effect can keep
    re-queuing forever, hence the fuel. *)
Fixpoint settle (fuel : nat) (sys : Sys) : option Sys :=
  match fuel with
  | O => None
  | S n =>
      match pending sys with
      | [] => Some sys
      | _ :: _ => settle n (commit sys)
      end
  end.

(** ** Scenario data *)

Definition artwork (i : Z) : Artwork :=
  {| id := i; title := ""; artist_title := None |}.

Definition page (ids : list Z) : list Artwork := artwork <$> ids.

Definition response (ids : list Z) (t : option Z) : FetchOutcome :=
  Resolved
    {| resp_data := Some (page ids);
       pagination :=
         Some {| total := t; current_page := None; total_pages := None;
                 limit := None |} |}.

Definition ids_1_10 : list Z := [1; 2; 3; 4; 5; 6; 7; 8; 9; 10].
Definition ids_11_20 : list Z := [11; 12; 13; 14; 15; 16; 17; 18; 19; 20].

(** A request is stale once a later one has been issued. *)
Definition stale (sys : Sys) (seq : nat) : Prop :=
  (S seq < length (issued sys))%nat.

(** The state a handler or effect leaves once its setter calls are
    applied. *)
Definition after (h : State → list Update) (st : State) : State :=
  apply_updates (h st) st.

(** The ids of a page, as a set. *)
Definition pageIds (items : list Artwork) : gset Z :=
  list_to_set (id <$> items).

(** [ceil(a / b)] over the integers, for [b ≠ 0]. *)
Definition ceilZ (a b : Z) : Z := - ((- a) / b).

(** Page 1 of a 20-record collection is on screen, its first five rows
    were ticked one by one, and 10 has been typed into the count
    input. *)
Definition five_ticked : Sys :=
  run [Settled 0 (response ids_1_10 (Some 20)); Commit;
       ToggleRow 1; Commit; ToggleRow 2; Commit; ToggleRow 3; Commit;
       ToggleRow 4; Commit; ToggleRow 5; Commit;
       InputCount (Some 10); Commit] mount.

(** The page size was switched from 10 to 20 while the first request
    (for page 1, limit 10) was still in flight; the response to the second
    request (page 1, limit 20) has arrived and is on screen. *)
Definition resized_then_fresh : Sys :=
  run [RowsPerPage 20; Commit;
       Settled 1 (response (ids_1_10 ++ ids_11_20) (Some 40)); Commit] mount.

(** The ids of [items] that are not in [s], in page order, each once:
    what a scan of the page can add to the selection [s]. *)
Fixpoint unselectedInOrder (items : list Artwork) (s : gset Z) : list Z :=
  match items with
  | [] => []
  | item :: rest =>
      if bool_decide (id item ∈ s) then unselectedInOrder rest s
      else id item :: unselectedInOrder rest ({[id item]} ∪ s)
  end.

(** The server reports an empty collection ([total = 0], no records), so
    the stored total is the fallback 100; the user went to page 10, the
    last of the ten pages shown, and before its response arrived typed 5
    and pressed Apply. *)
Definition awaiting_last_page : Sys :=
  run [Settled 0 (response [] (Some 0)); Commit;
       PageChange {| e_first := 90; e_rows := 10 |}; Commit;
       InputCount (Some 5); Commit;
       Apply; Commit] mount.

(** Then the response for page 10 arrives, with no records. *)
Definition empty_last_page : Sys :=
  run [Settled 1 (response [] (Some 0)); Commit] awaiting_last_page.

(** Apply was pressed with count 10 before any record was on screen; the
    response that then arrives holds the whole collection, five
    records. *)
Definition awaiting_only_page : Sys :=
  run [InputCount (Some 10); Commit; Apply; Commit] mount.

Definition only_page : ApiResponse :=
  {| resp_data := Some (page [1; 2; 3; 4; 5]);
     pagination :=
       Some {| total := Some 5; current_page := Some 1;
               total_pages := Some 1; limit := Some 10 |} |}.

(** Page 1 of a 30-record collection is on screen and all of its ten
    records were selected with the header checkbox; then 1 was typed and
    Apply pressed, so the selection effect is about to run on a page that
    has nothing new, with two more pages to come. *)
Definition selected_first_page : Sys :=
  run [Settled 0 (response ids_1_10 (Some 30)); Commit;
       ToggleAll; Commit;
       InputCount (Some 1); Commit;
       Apply] mount.

(** The guard of the selection effect (line 107), negated: a bulk-select
    is in progress. *)
Definition inProgress (st : State) : bool :=
  isSelecting st && (0 <? remainingToSelect st).

(** The checked state of the header checkbox (line 224). *)
Definition headerChecked (st : State) : bool :=
  (0 <? Z.of_nat (length (data st)))
  && forallb (λ item, bool_decide (id item ∈ selected st)) (data st).

(** The checked state of a row's checkbox (line 238). *)
Definition rowChecked (item : Artwork) (st : State) : bool :=
  bool_decide (id item ∈ selected st).

(** The events that only touch the selection or the count input. *)
Definition selectionEvent (ev : Event) : bool :=
  match ev with
  | ToggleRow _ | ToggleAll | Clear | InputCount _ => true
  | _ => false
  end.

(** While a bulk-select is in progress a call of [setSelected] is always
    queued, so another commit, and another run of the effect, follows. *)
Definition restless (sys : Sys) : Prop :=
  inProgress (rendered sys) = false ∨ setsSelected (pending sys) = true.



(** * Properties *)

(** ** Quotients in binary64 *)

Lemma ge_pow2_spec (n d k : Z) :
  ge_pow2 n d k = true ↔
  (0 ≤ k ∧ d * 2 ^ k ≤ n) ∨ (k < 0 ∧ d ≤ n * 2 ^ (- k)).
Proof.
  unfold ge_pow2. destruct (Z.leb_spec 0 k); rewrite Z.leb_le; lia.
Qed.

Lemma ge_pow2_ilog2 (n d : Z) :
  0 < n → 0 < d → ge_pow2 n d (ilog2 n d) = true.
Proof.
  intros Hn Hd. unfold ilog2.
  destruct (ge_pow2 n d (Z.log2 n - Z.log2 d)) eqn:Hl; [exact Hl |].
  pose proof (Z.log2_spec n Hn) as [Hn1 _].
  pose proof (Z.log2_spec d Hd) as [_ Hd2].
  pose proof (Z.log2_nonneg n) as Hi. pose proof (Z.log2_nonneg d) as Hj.
  set (i := Z.log2 n) in *. set (j := Z.log2 d) in *.
  apply ge_pow2_spec.
  destruct (Z.le_gt_cases 0 (i - j - 1)) as [Hpos | Hneg].
  - left. split; [exact Hpos |].
    assert (2 ^ i = 2 ^ Z.succ j * 2 ^ (i - j - 1)) as Hsplit.
    { rewrite <- Z.pow_add_r by lia. f_equal. lia. }
    assert (0 < 2 ^ (i - j - 1)) by (apply Z.pow_pos_nonneg; lia).
    nia.
  - right. split; [exact Hneg |].
    assert (2 ^ Z.succ j = 2 ^ i * 2 ^ (- (i - j - 1))) as Hsplit.
    { rewrite <- Z.pow_add_r by lia. f_equal. lia. }
    assert (0 < 2 ^ (- (i - j - 1))) by (apply Z.pow_pos_nonneg; lia).
    nia.
Qed.

Lemma roundHalfEven_cases (N D : Z) :
  0 < D →
  (roundHalfEven N D = N / D ∧ 2 * (N mod D) ≤ D)
  ∨ (roundHalfEven N D = N / D + 1 ∧ D ≤ 2 * (N mod D)).
Proof.
  intros HD. unfold roundHalfEven.
  destruct (Z.compare_spec (2 * (N mod D)) D) as [Heq | Hlt | Hgt].
  - destruct (Z.even (N / D)); [left | right]; split; lia.
  - left. split; lia.
  - right. split; lia.
Qed.

(** The scaled quotient is at least [2 ^ 52]: the mantissa is normal. *)
Lemma quotMag_normal (n d m e : Z) :
  0 < n → 0 < d → quotMag n d = (m, e) →
  (0 ≤ e ∧ m = roundHalfEven n (d * 2 ^ e) ∧ d * 2 ^ e * 2 ^ 52 ≤ n)
  ∨ (e < 0 ∧ m = roundHalfEven (n * 2 ^ (- e)) d
     ∧ d * 2 ^ 52 ≤ n * 2 ^ (- e)).
Proof.
  intros Hn Hd. unfold quotMag.
  destruct (Z.eqb_spec n 0) as [| _]; [lia |].
  pose proof (ge_pow2_ilog2 n d Hn Hd) as Hnorm.
  apply ge_pow2_spec in Hnorm.
  set (fl := ilog2 n d) in *. intros [= <- <-].
  destruct (Z.leb_spec 0 (fl - 52)) as [Hpos | Hneg].
  - left. split; [exact Hpos |]. split; [reflexivity |].
    destruct Hnorm as [[_ Hle] | [Hlt _]]; [| lia].
    replace (2 ^ fl) with (2 ^ (fl - 52) * 2 ^ 52) in Hle; [lia |].
    rewrite <- Z.pow_add_r by lia. f_equal. lia.
  - right. split; [exact Hneg |]. split; [reflexivity |].
    destruct Hnorm as [[Hfl Hle] | [Hfl Hle]].
    + replace (2 ^ 52) with (2 ^ fl * 2 ^ (- (fl - 52))).
      * assert (0 < 2 ^ (- (fl - 52))) by (apply Z.pow_pos_nonneg; lia).
        nia.
      * rewrite <- Z.pow_add_r by lia. f_equal. lia.
    + replace (2 ^ (- (fl - 52))) with (2 ^ (- fl) * 2 ^ 52).
      * nia.
      * rewrite <- Z.pow_add_r by lia. f_equal. lia.
Qed.

Lemma pow2_ge_2 (t : Z) : 0 < t → 2 ≤ 2 ^ t.
Proof.
  intros Ht. replace t with (Z.succ (t - 1)) by lia.
  rewrite Z.pow_succ_r by lia.
  assert (0 < 2 ^ (t - 1)) by (apply Z.pow_pos_nonneg; lia). lia.
Qed.

Lemma div_between (a b q : Z) : 0 < b → b * q ≤ a < b * (q + 1) → a / b = q.
Proof.
  intros Hb Hq. symmetry. apply (Z.div_unique a b q (a - b * q)); lia.
Qed.

Lemma quotMag_exact (n d : Z) :
  0 ≤ n < 2 ^ 53 → 0 < d →
  floorD (quotMag n d) = n / d ∧ ceilD (quotMag n d) = ceilZ n d.
Proof.
  intros [Hn0 Hn] Hd. unfold ceilZ.
  destruct (Z.eq_dec n 0) as [-> | Hne].
  { unfold quotMag. simpl. rewrite Z.div_0_l by lia. done. }
  destruct (quotMag n d) as [m e] eqn:Hq.
  pose proof (Z.div_mod n d ltac:(lia)) as Hdm.
  pose proof (Z.mod_pos_bound n d Hd) as HR.
  set (Q := n / d) in *. set (R := n mod d) in *.
  assert ((- n) / d = - (Q + (if R =? 0 then 0 else 1))) as Hceil.
  { apply div_between; [exact Hd |].
    destruct (Z.eqb_spec R 0); nia. }
  rewrite Hceil.
  destruct (quotMag_normal n d m e ltac:(lia) Hd Hq)
    as [(He & Hm & Hnorm) | (He & Hm & Hnorm)].
  - (* the quotient is at least 2^52: the divisor is 1 *)
    assert (0 < 2 ^ e) as Hpe by (apply Z.pow_pos_nonneg; lia).
    assert (d * 2 ^ e = 1) as Hone.
    { change (2 ^ 53) with (2 * 2 ^ 52) in Hn. nia. }
    assert (d = 1 ∧ 2 ^ e = 1) as [-> Hp1] by nia.
    assert (e = 0) as ->.
    { destruct (Z.eq_dec e 0) as [| Hnz]; [done |].
      pose proof (pow2_ge_2 e ltac:(lia)). lia. }
    rewrite Hone in Hm.
    destruct (roundHalfEven_cases n 1 ltac:(lia)) as [[Hr _] | [_ Habs]].
    + rewrite Z.div_1_r in Hr.
      assert (m = n) as -> by congruence.
      assert (Q = n ∧ R = 0) as [-> ->].
      { subst Q R. rewrite Z.div_1_r, Z.mod_1_r. done. }
      unfold ceilD, floorD. simpl. lia.
    + rewrite Z.mod_1_r in Habs. lia.
  - (* the quotient has fractional bits *)
    set (P := 2 ^ (- e)) in *.
    assert (2 ≤ P) as HP by (apply pow2_ge_2; lia).
    pose proof (Z.div_mod (n * P) d ltac:(lia)) as HdmN.
    pose proof (Z.mod_pos_bound (n * P) d Hd) as Hr.
    set (m0 := n * P / d) in *. set (r := (n * P) mod d) in *.
    assert (d < 2 * P) as Hsmall.
    { destruct (Z.lt_ge_cases d (2 * P)) as [| Hbig]; [done |].
      change (2 ^ 53) with (2 * 2 ^ 52) in Hn. nia. }
    assert (P * Q ≤ m0 < P * (Q + 1)) as Hm0 by nia.
    assert (r = R * P + d * (Q * P - m0)) as Hrem by nia.
    destruct (roundHalfEven_cases (n * P) d Hd) as [[Hr0 Hdown] | [Hr1 Hup]];
      fold m0 r in Hr0 || fold m0 r in Hr1.
    + (* rounded down *)
      assert (m = m0) as -> by congruence.
      unfold ceilD, floorD. destruct (Z.leb_spec 0 e); [lia |]. fold P.
      split; [apply div_between; lia |].
      f_equal. apply div_between; [lia |].
      destruct (Z.eqb_spec R 0) as [HR0 | HRpos]; [nia |].
      assert (m0 ≠ P * Q); [| lia].
      intros ->. nia.
    + (* rounded up *)
      assert (m = m0 + 1) as -> by congruence.
      assert (m0 + 1 < P * (Q + 1)) as Hstay.
      { destruct (Z.lt_ge_cases (m0 + 1) (P * (Q + 1))) as [| Hcross];
          [done |].
        assert (m0 = P * Q + P - 1) as Hm0eq by lia. nia. }
      unfold ceilD, floorD. destruct (Z.leb_spec 0 e); [lia |]. fold P.
      split; [apply div_between; lia |].
      f_equal. apply div_between; [lia |].
      destruct (Z.eqb_spec R 0) as [HR0 | HRpos]; [nia | lia].
Qed.

Lemma floorD_neg (m e : Z) : floorD (- m, e) = - ceilD (m, e).
Proof. unfold ceilD. lia. Qed.

Lemma ceilD_neg (m e : Z) : ceilD (- m, e) = - floorD (m, e).
Proof. unfold ceilD. by rewrite Z.opp_involutive. Qed.


(** Below [2 ^ 53] the rounded quotient has the floor and the ceiling of
    the exact one. *)
Lemma divD_exact (a b : Z) :
  Z.abs a < 2 ^ 53 → 0 < b →
  floorD (divD a b) = a / b ∧ ceilD (divD a b) = ceilZ a b.
Proof.
  intros Ha Hb. unfold divD. rewrite (Z.abs_eq b), (Z.sgn_pos b) by lia.
  destruct (quotMag (Z.abs a) b) as [m e] eqn:Hq.
  pose proof (quotMag_exact (Z.abs a) b ltac:(lia) Hb) as [Hfloor Hceil].
  rewrite Hq in Hfloor, Hceil.
  destruct (Z.lt_trichotomy a 0) as [Hneg | [-> | Hpos]].
  - rewrite (Z.sgn_neg a), (Z.abs_neq a) in * by lia.
    replace (-1 * 1 * m) with (- m) by lia.
    rewrite floorD_neg, ceilD_neg, Hfloor, Hceil. unfold ceilZ.
    rewrite !Z.opp_involutive. done.
  - simpl in Hq. injection Hq as <- <-. done.
  - rewrite (Z.sgn_pos a), (Z.abs_eq a) in * by lia.
    replace (1 * 1 * m) with m by lia. done.
Qed.


(** The rounded quotient of two positive integers is positive. *)
Lemma divD_ceil_pos (a b : Z) : 0 < a → 0 < b → 1 ≤ ceilD (divD a b).
Proof.
  intros Ha Hb. unfold divD. rewrite (Z.abs_eq a), (Z.abs_eq b) by lia.
  rewrite (Z.sgn_pos a), (Z.sgn_pos b) by lia.
  destruct (quotMag a b) as [m e] eqn:Hq.
  replace (1 * 1 * m) with m by lia.
  assert (1 ≤ m) as Hm.
  { destruct (quotMag_normal a b m e Ha Hb Hq)
      as [(He & -> & Hnorm) | (He & -> & Hnorm)].
    - assert (0 < 2 ^ e) by (apply Z.pow_pos_nonneg; lia).
      pose proof (Z.div_mod a (b * 2 ^ e) ltac:(lia)).
      pose proof (Z.mod_pos_bound a (b * 2 ^ e) ltac:(lia)).
      destruct (roundHalfEven_cases a (b * 2 ^ e) ltac:(lia))
        as [[-> _] | [-> _]];
        change (2 ^ 52) with 4503599627370496 in *; nia.
    - pose proof (Z.div_mod (a * 2 ^ (- e)) b ltac:(lia)).
      pose proof (Z.mod_pos_bound (a * 2 ^ (- e)) b Hb).
      destruct (roundHalfEven_cases (a * 2 ^ (- e)) b Hb)
        as [[-> _] | [-> _]];
        change (2 ^ 52) with 4503599627370496 in *; nia. }
  unfold ceilD, floorD. destruct (Z.leb_spec 0 e).
  - assert (0 < 2 ^ e) by (apply Z.pow_pos_nonneg; lia). nia.
  - assert (0 < 2 ^ (- e)) by (apply Z.pow_pos_nonneg; lia).
    assert (- m / 2 ^ (- e) < 0); [| lia].
    apply Z.div_lt_upper_bound; lia.
Qed.

Lemma roundInt_exact (z : Z) : Z.abs z ≤ 2 ^ 53 → roundInt z = z.
Proof.
  intros Hz. unfold roundInt.
  destruct (Z.eq_dec (Z.abs z) (2 ^ 53)) as [Hmax | Hless].
  - destruct (Z.abs_spec z) as [[_ Heq] | [_ Heq]].
    + assert (z = 2 ^ 53) as -> by lia. vm_compute. reflexivity.
    + assert (z = - 2 ^ 53) as -> by lia. vm_compute. reflexivity.
  - destruct (divD_exact z 1 ltac:(lia) ltac:(lia)) as [-> _].
    apply Z.div_1_r.
Qed.


(** From [2 ^ 53] on the rounding shows: the quotient
    [45035996273704968 / 10] is rounded up to the next integer before
    [Math.floor] applies, and [36028797018963976 / 5] is rounded down
    before [Math.ceil] applies. *)
Lemma quotients_beyond_exact_range :
  floor_div 45035996273704968 10 = Fin 4503599627370497
  ∧ 45035996273704968 / 10 = 4503599627370496
  ∧ ceil_div 45035996273704968 10 = Fin 4503599627370497
  ∧ ceil_div 36028797018963976 5 = Fin 7205759403792795
  ∧ ceilZ 36028797018963976 5 = 7205759403792796.
Proof. repeat split; vm_compute; reflexivity. Qed.

(** ** Page arithmetic *)

Lemma toPage_value (offset size : Z) :
  size ≠ 0 →
  toPage offset size = Fin (roundInt (floorD (divD offset size) + 1)).
Proof.
  intros Hsize. unfold toPage, floor_div.
  destruct (Z.eqb_spec size 0) as [Heq | _]; [contradiction | reflexivity].
Qed.

Lemma totalPages_value (st : State) :
  rows st ≠ 0 →
  totalPages st = Fin (ceilD (divD (totalRecords st) (rows st))).
Proof.
  intros Hrows. unfold totalPages, ceil_div.
  destruct (Z.eqb_spec (rows st) 0) as [Heq | _]; [contradiction | reflexivity].
Qed.

(** Below [2 ^ 53] the page of an offset is the exact one. *)
Lemma toPage_Fin (offset size : Z) :
  0 < size → Z.abs offset < 2 ^ 53 →
  toPage offset size = Fin (offset / size + 1).
Proof.
  intros Hsize Hsafe. rewrite toPage_value by lia.
  destruct (divD_exact offset size Hsafe Hsize) as [-> _].
  rewrite roundInt_exact; [done |].
  pose proof (Z.div_mod offset size ltac:(lia)) as Hdm.
  pose proof (Z.mod_pos_bound offset size Hsize) as Hmod.
  change (2 ^ 53) with 9007199254740992 in *. nia.
Qed.

Lemma totalPages_Fin (st : State) :
  0 < rows st → Z.abs (totalRecords st) < 2 ^ 53 →
  totalPages st = Fin (ceilZ (totalRecords st) (rows st)).
Proof.
  intros Hrows Hsafe. rewrite totalPages_value by lia.
  by destruct (divD_exact (totalRecords st) (rows st) Hsafe Hrows) as [_ ->].
Qed.

Lemma toPage_zero (size : Z) : size ≠ 0 → toPage 0 size = Fin 1.
Proof. intros Hsize. by rewrite toPage_value. Qed.


(** [ceilZ a b] is the least number of pages of size [b] that hold [a]
    records. *)
Lemma ceilZ_least (a b n : Z) : 0 < b → ceilZ a b ≤ n ↔ a ≤ n * b.
Proof.
  intros Hb. unfold ceilZ.
  pose proof (Z.div_mod (- a) b ltac:(lia)) as Hdm.
  pose proof (Z.mod_pos_bound (- a) b Hb) as Hr.
  split; intros H; nia.
Qed.

(** The page number of an offset never goes down as the offset grows. *)
Lemma toPage_monotone (o1 o2 size : Z) :
  0 < size → Z.abs o1 < 2 ^ 53 → Z.abs o2 < 2 ^ 53 → o1 ≤ o2 →
  leb (toPage o1 size) (toPage o2 size) = true.
Proof.
  intros Hsize Hs1 Hs2 Hle. rewrite !toPage_Fin by lia. simpl.
  apply Z.leb_le. pose proof (Z.div_le_mono o1 o2 size Hsize Hle). lia.
Qed.

(** ** [handleSelectN] *)

(** C5: [handleSelectN] with a count [<= 0] calls no setter and leaves
    every state cell as it was; with a count [n > 0] it stores [n] as the
    remaining count and raises the selecting flag whatever the two held
    before, so a bulk-select in progress is superseded, not summed. *)
Theorem handleSelectN_start (st : State) :
  (selectCount st ≤ 0 →
     handleSelectN st = [] ∧ after handleSelectN st = st)
  ∧ (0 < selectCount st →
     after handleSelectN st =
       {| data := data st; totalRecords := totalRecords st;
          first := first st; rows := rows st; selected := selected st;
          selectCount := 0;
          remainingToSelect := selectCount st;
          isSelecting := true |}).
Proof.
  unfold after, handleSelectN. split; intros Hn.
  - destruct (Z.leb_spec (selectCount st) 0); [done | lia].
  - destruct (Z.leb_spec (selectCount st) 0); [lia | reflexivity].
Qed.

Lemma handleSelectN_start_witness :
  let busy :=
    {| data := page ids_1_10; totalRecords := 20; first := 0; rows := 10;
       selected := {[1]}; selectCount := 7;
       remainingToSelect := 4; isSelecting := true |} in
  remainingToSelect (after handleSelectN busy) = 7
  ∧ isSelecting (after handleSelectN busy) = true
  ∧ after handleSelectN initialState = initialState.
Proof.
  intros busy.
  destruct (handleSelectN_start busy) as [_ Hpos].
  destruct (handleSelectN_start initialState) as [Hzero _].
  rewrite Hpos by (simpl; lia).
  split; [reflexivity |]. split; [reflexivity |].
  apply Hzero. simpl. lia.
Defined.

(** ** [handlePageChange] *)

Lemma handlePageChange_rejected (e : PageChangeEvent) (st : State) :
  pageChangeAccepted e st = false →
  handlePageChange e st = [] ∧ after (handlePageChange e) st = st.
Proof.
  intros Hrej. unfold after, handlePageChange. by rewrite Hrej.
Qed.

Lemma pageChangeAccepted_iff (e : PageChangeEvent) (st : State) :
  0 < e_rows e → 0 < rows st →
  Z.abs (e_first e) < 2 ^ 53 → Z.abs (totalRecords st) < 2 ^ 53 →
  pageChangeAccepted e st = true
  ↔ 1 ≤ e_first e / e_rows e + 1 ≤ ceilZ (totalRecords st) (rows st).
Proof.
  intros He Hr Hfirst Htotal. unfold pageChangeAccepted.
  rewrite toPage_Fin, totalPages_Fin by lia. simpl.
  rewrite andb_true_iff, !Z.leb_le. reflexivity.
Qed.

(** C6: a page-change request is accepted iff its page number
    [Math.floor(e.first / e.rows) + 1] lies in [[1, totalPages]], where
    [totalPages = Math.ceil(totalRecords / rows)] comes from the stored
    total, both as the code computes them; an accepted request stores
    exactly the requested offset and page size, a rejected one calls no
    setter, so no state cell changes.  For positive page sizes and an
    offset and a total below [2 ^ 53] in magnitude the two quotients are
    the exact ones, [floor(e.first / e.rows) + 1] and
    [ceil(totalRecords / rows)]. *)
Theorem handlePageChange_spec (e : PageChangeEvent) (st : State) :
  let newPage := toPage (e_first e) (e_rows e) in
  (pageChangeAccepted e st = true
   ↔ geb newPage (Fin 1) = true ∧ leb newPage (totalPages st) = true)
  ∧ (pageChangeAccepted e st = true →
     after (handlePageChange e) st =
       {| data := data st; totalRecords := totalRecords st;
          first := e_first e; rows := e_rows e; selected := selected st;
          selectCount := selectCount st;
          remainingToSelect := remainingToSelect st;
          isSelecting := isSelecting st |})
  ∧ (pageChangeAccepted e st = false →
     handlePageChange e st = [] ∧ after (handlePageChange e) st = st)
  ∧ (0 < e_rows e → 0 < rows st →
     Z.abs (e_first e) < 2 ^ 53 → Z.abs (totalRecords st) < 2 ^ 53 →
     newPage = Fin (e_first e / e_rows e + 1)
     ∧ totalPages st = Fin (ceilZ (totalRecords st) (rows st))
     ∧ (pageChangeAccepted e st = true
        ↔ 1 ≤ e_first e / e_rows e + 1
              ≤ ceilZ (totalRecords st) (rows st))).
Proof.
  intros newPage. subst newPage. split; [| split; [| split]].
  - unfold pageChangeAccepted. by rewrite andb_true_iff.
  - intros Hacc. unfold after, handlePageChange. rewrite Hacc. reflexivity.
  - apply handlePageChange_rejected.
  - intros He Hr Hfirst Htotal.
    split; [by apply toPage_Fin |]. split; [by apply totalPages_Fin |].
    by apply pageChangeAccepted_iff.
Qed.

(** Beyond that range the guard follows the rounded quotients: with
    45035996273704968 records and page size 10, the exact page of offset
    45035996273704968 is 4503599627370497, the last one; its quotient
    rounds up, the code computes page 4503599627370498 and rejects the
    request. *)
Lemma pageChange_beyond_exact_range :
  let st :=
    {| data := []; totalRecords := 45035996273704968; first := 0;
       rows := 10; selected := ∅; selectCount := 0;
       remainingToSelect := 0; isSelecting := false |} in
  let e := {| e_first := 45035996273704960; e_rows := 10 |} in
  toPage (e_first e) (e_rows e) = Fin 4503599627370497
  ∧ totalPages st = Fin 4503599627370497
  ∧ pageChangeAccepted e st = true
  ∧ toPage 45035996273704968 10 = Fin 4503599627370498
  ∧ pageChangeAccepted {| e_first := 45035996273704968; e_rows := 10 |} st
    = false.
Proof. repeat split; vm_compute; reflexivity. Qed.

Lemma handlePageChange_spec_witness :
  let st := rendered resized_then_fresh in
  let beyond := {| e_first := 40; e_rows := 20 |} in
  let second := {| e_first := 20; e_rows := 20 |} in
  after (handlePageChange beyond) st = st
  ∧ first (after (handlePageChange second) st) = 20
  ∧ (pageChangeAccepted second st = true ↔ 1 ≤ 20 / 20 + 1 ≤ 2).
Proof.
  intros st beyond second.
  destruct (handlePageChange_spec beyond st) as (_ & _ & Hrej & _).
  destruct (handlePageChange_spec second st) as (_ & Hacc & _ & Hexact).
  split; [apply Hrej; vm_compute; reflexivity |].
  split; [rewrite Hacc; vm_compute; reflexivity |].
  apply Hexact; vm_compute; reflexivity.
Defined.

(** ** [fetchData] *)

Lemma apply_updates_app (ups1 ups2 : list Update) (st : State) :
  apply_updates (ups1 ++ ups2) st = apply_updates ups2 (apply_updates ups1 st).
Proof. unfold apply_updates. apply fold_left_app. Qed.

Lemma enqueue_nil (sys : Sys) : enqueue [] sys = sys.
Proof. destruct sys. unfold enqueue. simpl. by rewrite app_nil_r. Qed.

(** C8: a fetch that fails (the awaited [fetch] or [json()] throws) calls
    no setter: the component is exactly as before, with the same records,
    total, offset, page size, selection, remaining count and selecting
    flag, and the same queue of pending setter calls. *)
Theorem fetch_failure_changes_nothing (sys : Sys) (seq : nat) (st : State) :
  fetchData_settle Rejected = []
  ∧ apply_updates (fetchData_settle Rejected) st = st
  ∧ step sys (Settled seq Rejected) = sys
  ∧ commit (step sys (Settled seq Rejected)) = commit sys.
Proof.
  split; [reflexivity |]. split; [reflexivity |].
  simpl. rewrite enqueue_nil. split; reflexivity.
Qed.

Lemma fetchData_settle_resolved (json : ApiResponse) (st : State) :
  apply_updates (fetchData_settle (Resolved json)) st =
    {| data := data_or_empty json; totalRecords := total_or_100 json;
       first := first st; rows := rows st; selected := selected st;
       selectCount := selectCount st;
       remainingToSelect := remainingToSelect st;
       isSelecting := isSelecting st |}.
Proof. reflexivity. Qed.

(** C9: when a decoded response has no [pagination] object, or has one
    without [total], the stored total becomes exactly 100 and the page
    count is [ceil(100 / rows)]. *)
Theorem missing_total_defaults_to_100 (json : ApiResponse) (st : State) :
  pagination json = None
  ∨ (∃ p, pagination json = Some p ∧ total p = None) →
  let st' := apply_updates (fetchData_settle (Resolved json)) st in
  totalRecords st' = 100
  ∧ rows st' = rows st
  ∧ totalPages st' = ceil_div 100 (rows st).
Proof.
  intros Hmissing st'. subst st'. rewrite fetchData_settle_resolved.
  unfold totalPages. simpl.
  assert (total_or_100 json = 100) as ->; [| done].
  unfold total_or_100.
  destruct Hmissing as [-> | (p & -> & ->)]; reflexivity.
Qed.

Lemma missing_total_defaults_to_100_witness :
  let bare := {| resp_data := Some (page ids_1_10); pagination := None |} in
  let st' := apply_updates (fetchData_settle (Resolved bare)) initialState in
  totalRecords st' = 100 ∧ rows st' = 10 ∧ totalPages st' = Fin 10.
Proof.
  intros bare.
  apply (missing_total_defaults_to_100 bare initialState).
  left. reflexivity.
Defined.

(** C10: when a decoded response reports [pagination.total = 0], the
    stored total becomes 100, not 0, and the page count is
    [ceil(100 / rows)]: the fallback is taken for a falsy total, not only
    for a missing one. *)
Theorem zero_total_becomes_100 (json : ApiResponse) (p : Pagination)
    (st : State) :
  pagination json = Some p → total p = Some 0 →
  let st' := apply_updates (fetchData_settle (Resolved json)) st in
  totalRecords st' = 100
  ∧ totalRecords st' ≠ 0
  ∧ totalPages st' = ceil_div 100 (rows st).
Proof.
  intros Hp Ht st'. subst st'. rewrite fetchData_settle_resolved.
  unfold totalPages. simpl.
  assert (total_or_100 json = 100) as ->; [| done].
  unfold total_or_100. rewrite Hp, Ht. reflexivity.
Qed.

Lemma zero_total_becomes_100_witness :
  let empty :=
    {| resp_data := Some [];
       pagination :=
         Some {| total := Some 0; current_page := Some 1;
                 total_pages := Some 0; limit := Some 10 |} |} in
  let st' := apply_updates (fetchData_settle (Resolved empty)) initialState in
  totalRecords st' = 100 ∧ totalRecords st' ≠ 0 ∧ totalPages st' = Fin 10.
Proof.
  intros empty.
  apply (zero_total_becomes_100 empty
           {| total := Some 0; current_page := Some 1;
              total_pages := Some 0; limit := Some 10 |} initialState);
    reflexivity.
Defined.

(** C1, as stated, fails: the response to request 0 (page 1, limit 10)
    arrives after the page size went to 20 and after the response to
    request 1 was applied; it is stale, and yet it replaces the 20 records
    and the total on screen. *)
Lemma stale_response_overwrites :
  let late := response ids_1_10 (Some 100) in
  let sys' := run [Settled 0 late; Commit] resized_then_fresh in
  pending resized_then_fresh = []
  ∧ stale resized_then_fresh 0
  ∧ rows (rendered resized_then_fresh) = 20
  ∧ id <$> data (rendered resized_then_fresh) = ids_1_10 ++ ids_11_20
  ∧ totalRecords (rendered resized_then_fresh) = 40
  ∧ rows (rendered sys') = 20
  ∧ id <$> data (rendered sys') = ids_1_10
  ∧ totalRecords (rendered sys') = 100
  ∧ rendered sys' ≠ rendered resized_then_fresh.
Proof.
  intros late sys'.
  repeat (split; [vm_compute; (reflexivity || lia) |]).
  intros Heq. apply (f_equal totalRecords) in Heq.
  vm_compute in Heq. discriminate Heq.
Qed.

(** C1, amended: the component keeps no sequence number; every decoded
    response is applied when it arrives, whatever request it answers,
    whatever was issued since and whatever setter calls are queued: after
    the commit the records are the response's [data] (or the empty list)
    and the total its [pagination.total] (or 100), and every other state
    cell is as the setter calls queued before the response leave it, the
    response writes none of them. *)
Theorem response_applied_unconditionally (sys : Sys) (seq : nat)
    (json : ApiResponse) :
  let queued := apply_updates (pending sys) (rendered sys) in
  rendered (run [Settled seq (Resolved json); Commit] sys) =
    {| data := data_or_empty json; totalRecords := total_or_100 json;
       first := first queued; rows := rows queued;
       selected := selected queued;
       selectCount := selectCount queued;
       remainingToSelect := remainingToSelect queued;
       isSelecting := isSelecting queued |}.
Proof.
  intros queued. subst queued. simpl. rewrite apply_updates_app.
  reflexivity.
Qed.

Lemma response_applied_unconditionally_witness :
  stale resized_then_fresh 0
  ∧ id <$> data (rendered (run [Settled 0 (response ids_1_10 (Some 100));
                                Commit] resized_then_fresh)) = ids_1_10.
Proof.
  split; [vm_compute; lia |].
  unfold response.
  rewrite (response_applied_unconditionally resized_then_fresh 0).
  reflexivity.
Defined.

(** ** [toggleSelectAll] *)

Lemma elem_of_pageIds (i : Z) (items : list Artwork) :
  i ∈ pageIds items ↔ ∃ item, item ∈ items ∧ id item = i.
Proof.
  unfold pageIds. rewrite elem_of_list_to_set, list_elem_of_fmap.
  naive_solver.
Qed.

Lemma pageIds_cons (item : Artwork) (items : list Artwork) :
  pageIds (item :: items) = {[id item]} ∪ pageIds items.
Proof. reflexivity. Qed.

Lemma delete_each (items : list Artwork) (s : gset Z) :
  fold_left (λ s item, s ∖ {[id item]}) items s = s ∖ pageIds items.
Proof.
  revert s. induction items as [| item items IH]; intros s; simpl.
  - unfold pageIds. simpl. set_solver.
  - rewrite IH, pageIds_cons. set_solver.
Qed.

Lemma add_each (items : list Artwork) (s : gset Z) :
  fold_left (λ s item, {[id item]} ∪ s) items s = s ∪ pageIds items.
Proof.
  revert s. induction items as [| item items IH]; intros s; simpl.
  - unfold pageIds. simpl. set_solver.
  - rewrite IH, pageIds_cons. set_solver.
Qed.

Lemma allSelected_true (st : State) :
  allSelected st = true ↔ data st ≠ [] ∧ pageIds (data st) ⊆ selected st.
Proof.
  unfold allSelected. rewrite andb_true_iff, Z.ltb_lt, forallb_forall.
  split.
  - intros [Hlen Hall]. split.
    + intros Hnil. rewrite Hnil in Hlen. simpl in Hlen. lia.
    + intros i (item & Hin & <-)%elem_of_pageIds.
      apply list_elem_of_In, Hall in Hin. by apply bool_decide_eq_true in Hin.
  - intros [Hne Hsub]. split.
    + destruct (data st); [done | simpl; lia].
    + intros item Hin. apply bool_decide_eq_true, Hsub, elem_of_pageIds.
      exists item. split; [by apply list_elem_of_In | done].
Qed.

Lemma pageIds_nil_iff (items : list Artwork) : pageIds items = ∅ ↔ items = [].
Proof.
  split; [| by intros ->].
  destruct items as [| item items]; [done |].
  rewrite pageIds_cons. set_solver.
Qed.

Lemma toggleSelectAll_once (st : State) :
  after toggleSelectAll st =
    {| data := data st; totalRecords := totalRecords st; first := first st;
       rows := rows st;
       selected :=
         if allSelected st then selected st ∖ pageIds (data st)
         else selected st ∪ pageIds (data st);
       selectCount := selectCount st;
       remainingToSelect := remainingToSelect st;
       isSelecting := isSelecting st |}.
Proof.
  unfold after, toggleSelectAll.
  destruct (allSelected st); simpl; by rewrite ?delete_each, ?add_each.
Qed.

Lemma toggleSelectAll_twice (st : State) :
  selected (after toggleSelectAll (after toggleSelectAll st)) =
    if allSelected st then selected st
    else selected st ∖ pageIds (data st).
Proof.
  rewrite (toggleSelectAll_once (after toggleSelectAll st)).
  rewrite (toggleSelectAll_once st). simpl.
  destruct (allSelected st) eqn:Hall.
  - apply allSelected_true in Hall as [Hne Hsub].
    match goal with |- context [allSelected ?st1] =>
      destruct (allSelected st1) eqn:Hall1 end.
    + apply allSelected_true in Hall1 as [_ Hsub1]. simpl in Hsub1.
      assert (pageIds (data st) = ∅) as Hnone by set_solver.
      by apply pageIds_nil_iff in Hnone.
    + rewrite difference_union_L. set_solver.
  - match goal with |- context [allSelected ?st1] =>
      destruct (allSelected st1) eqn:Hall1 end.
    + set_solver.
    + destruct (decide (data st = [])) as [Hnil | Hne].
      * rewrite Hnil. unfold pageIds. simpl. set_solver.
      * assert (allSelected
                  {| data := data st; totalRecords := totalRecords st;
                     first := first st; rows := rows st;
                     selected := selected st ∪ pageIds (data st);
                     selectCount := selectCount st;
                     remainingToSelect := remainingToSelect st;
                     isSelecting := isSelecting st |} = true) as Habs.
        { apply allSelected_true. simpl. split; [done | set_solver]. }
        congruence.
Qed.

(** C7, as stated, fails on a page that was partly selected: with ids 1
    and 2 on the page and only 1 selected, the first toggle selects both
    and the second removes both, so id 1 is lost. *)
Lemma toggleSelectAll_twice_loses_selection :
  let st :=
    {| data := page [1; 2]; totalRecords := 2; first := 0; rows := 10;
       selected := {[1]}; selectCount := 0;
       remainingToSelect := 0; isSelecting := false |} in
  data (after toggleSelectAll st) = data st
  ∧ selected (after toggleSelectAll (after toggleSelectAll st)) = ∅
  ∧ selected (after toggleSelectAll (after toggleSelectAll st)) ≠ selected st.
Proof.
  intros st. split; [reflexivity |].
  assert (selected (after toggleSelectAll (after toggleSelectAll st)) = ∅)
    as Hempty by (vm_compute; reflexivity).
  split; [exact Hempty |].
  rewrite Hempty. simpl. intros Heq.
  assert (1 ∈ (∅ : gset Z)) as Hin by (rewrite Heq; set_solver).
  set_solver.
Qed.

(** C7, amended: one [toggleSelectAll] removes all of the page's ids when
    every item of the page was selected, and adds all of them when at
    least one was not, so the page is never left mixed and the records on
    screen stay as they are; a second one on the same page restores the
    prior selection when the page was fully selected or fully unselected
    before, and otherwise leaves the prior selection minus the page's
    ids. *)
Theorem toggleSelectAll_all_or_nothing (st : State) :
  let ids := pageIds (data st) in
  let st1 := after toggleSelectAll st in
  let st2 := after toggleSelectAll st1 in
  (ids ⊆ selected st → selected st1 = selected st ∖ ids)
  ∧ (¬ ids ⊆ selected st → selected st1 = selected st ∪ ids)
  ∧ (ids ⊆ selected st1 ∨ ids ## selected st1)
  ∧ data st1 = data st
  ∧ (ids ⊆ selected st ∨ ids ## selected st → selected st2 = selected st)
  ∧ (¬ ids ⊆ selected st → selected st2 = selected st ∖ ids).
Proof.
  intros ids st1 st2. subst st2 st1 ids.
  rewrite toggleSelectAll_twice, toggleSelectAll_once. simpl.
  destruct (allSelected st) eqn:Hall.
  - apply allSelected_true in Hall as [Hne Hsub].
    repeat split; try done; set_solver.
  - assert (data st = [] ∨ ¬ pageIds (data st) ⊆ selected st) as Hcase.
    { destruct (decide (data st = [])) as [Hnil | Hne]; [by left | right].
      intros Hsub. assert (allSelected st = true) as Habs
        by (by apply allSelected_true). congruence. }
    repeat split; try done.
    + intros Hsub. destruct Hcase as [Hnil | Hnsub]; [| done].
      rewrite Hnil. unfold pageIds. simpl. set_solver.
    + set_solver.
    + intros [Hsub | Hdisj]; [| set_solver].
      destruct Hcase as [Hnil | Hnsub]; [| done].
      rewrite Hnil. unfold pageIds. simpl. set_solver.
Qed.

Lemma toggleSelectAll_all_or_nothing_witness :
  let st :=
    {| data := page [1; 2]; totalRecords := 2; first := 0; rows := 10;
       selected := {[1; 2; 7]}; selectCount := 0;
       remainingToSelect := 0; isSelecting := false |} in
  selected (after toggleSelectAll st) = selected st ∖ pageIds (data st)
  ∧ selected (after toggleSelectAll (after toggleSelectAll st)) = selected st.
Proof.
  intros st.
  destruct (toggleSelectAll_all_or_nothing st)
    as (Hfull & _ & _ & _ & Htwice & _).
  assert (pageIds (data st) ⊆ selected st) as Hsub.
  { subst st. unfold pageIds. simpl. set_solver. }
  split.
  - apply Hfull. exact Hsub.
  - apply Htwice. left. exact Hsub.
Defined.

(** ** The scan of one page *)

(** The loop adds the first [remaining - count] not yet selected ids of
    the page, in page order, and counts them. *)
Lemma selectLoop_takes_first_unselected (items : list Artwork)
    (remaining : Z) (s : gset Z) (count : Z) :
  let added :=
    take (Z.to_nat (remaining - count)) (unselectedInOrder items s) in
  selectLoop items remaining s count =
    (s ∪ list_to_set added, count + Z.of_nat (length added)).
Proof.
  revert s count.
  induction items as [| item rest IH]; intros s count added; subst added.
  - simpl. rewrite take_nil. simpl.
    f_equal; [set_solver | lia].
  - simpl. destruct (Z.leb_spec remaining count) as [Hdone | Hmore].
    + replace (Z.to_nat (remaining - count)) with O by lia.
      simpl. f_equal; [set_solver | lia].
    + destruct (bool_decide (id item ∈ s)); [apply IH |].
      rewrite IH.
      replace (Z.to_nat (remaining - count))
        with (S (Z.to_nat (remaining - (count + 1)))) by lia.
      simpl. f_equal; [set_solver | lia].
Qed.

Lemma unselectedInOrder_fresh (items : list Artwork) (s : gset Z) (i : Z) :
  i ∈ unselectedInOrder items s ↔ i ∈ pageIds items ∧ i ∉ s.
Proof.
  revert s. induction items as [| item rest IH]; intros s; simpl.
  - unfold pageIds. simpl. set_solver.
  - rewrite pageIds_cons. case_bool_decide as Hin.
    + rewrite IH. set_solver.
    + rewrite elem_of_cons, IH.
      destruct (decide (i = id item)) as [-> | Hne]; set_solver.
Qed.

Lemma unselectedInOrder_NoDup (items : list Artwork) (s : gset Z) :
  NoDup (unselectedInOrder items s).
Proof.
  revert s. induction items as [| item rest IH]; intros s; simpl.
  - constructor.
  - case_bool_decide as Hin; [apply IH |].
    constructor; [| apply IH].
    rewrite unselectedInOrder_fresh. set_solver.
Qed.

Lemma unselectedInOrder_nil (items : list Artwork) (s : gset Z) :
  unselectedInOrder items s = [] ↔ pageIds items ⊆ s.
Proof.
  split.
  - intros Hnil i Hi. destruct (decide (i ∈ s)) as [| Hout]; [done |].
    assert (i ∈ unselectedInOrder items s) as Habs
      by (by apply unselectedInOrder_fresh).
    rewrite Hnil in Habs. by apply elem_of_nil in Habs.
  - intros Hsub. destruct (unselectedInOrder items s) as [| i l] eqn:Heq;
      [done |].
    assert (i ∈ unselectedInOrder items s) as Hi
      by (rewrite Heq; apply list_elem_of_here).
    apply unselectedInOrder_fresh in Hi. set_solver.
Qed.

(** What one scan returns: the count is between 0 and [remaining], it is
    the number of ids the selection grew by, every id added is an id of
    the page, and the count is 0 exactly when the page has nothing new. *)
Lemma selectLoop_result (items : list Artwork) (remaining : Z) (s s' : gset Z)
    (k : Z) :
  0 < remaining →
  selectLoop items remaining s 0 = (s', k) →
  0 ≤ k ≤ remaining
  ∧ s ⊆ s' ∧ s' ⊆ s ∪ pageIds items
  ∧ Z.of_nat (size s') = Z.of_nat (size s) + k
  ∧ (k = 0 ↔ pageIds items ⊆ s)
  ∧ (k = 0 → s' = s).
Proof.
  intros Hrem. rewrite selectLoop_takes_first_unselected.
  set (new := unselectedInOrder items s).
  set (added := take (Z.to_nat (remaining - 0)) new).
  intros [= <- <-].
  assert (length added ≤ Z.to_nat (remaining - 0))%nat as Hlen.
  { subst added. rewrite length_take. lia. }
  assert (∀ i, i ∈ added → i ∈ pageIds items ∧ i ∉ s) as Hadded.
  { intros i Hi. apply unselectedInOrder_fresh. subst added new.
    by apply (subseteq_take (Z.to_nat (remaining - 0))). }
  assert (NoDup added) as Hnodup.
  { subst added. eapply sublist_NoDup; [| apply sublist_take].
    apply unselectedInOrder_NoDup. }
  assert (length added = O ↔ pageIds items ⊆ s) as Hzero.
  { rewrite <- unselectedInOrder_nil. fold new. subst added.
    rewrite length_zero_iff_nil.
    destruct new as [| i l]; [by rewrite take_nil |].
    replace (Z.to_nat (remaining - 0)) with (S (Z.to_nat (remaining - 1)))
      by lia. done. }
  split; [lia |]. split; [set_solver |]. split; [set_solver |]. split.
  - rewrite size_union by set_solver.
    rewrite size_list_to_set by done. lia.
  - split; [rewrite <- Hzero; lia |].
    intros Hk. assert (added = []) as -> by (apply length_zero_iff_nil; lia).
    simpl. set_solver.
Qed.

(** ** One run of the selection effect *)

Lemma selectionEffect_idle (st : State) :
  isSelecting st = false ∨ remainingToSelect st ≤ 0 →
  selectionEffect st = [].
Proof.
  intros Hidle. unfold selectionEffect.
  destruct Hidle as [-> | Hle]; [done |].
  destruct (Z.leb_spec (remainingToSelect st) 0); [| lia].
  by rewrite orb_true_r.
Qed.

(** The state one run of the effect leaves while a bulk-select is in
    progress: the scan's set and count go into [selected] and
    [remainingToSelect]; then the offset moves one page on, or the flag
    drops, or neither (on an empty page). *)
Lemma selectionEffect_run (st : State) (s' : gset Z) (k : Z) :
  isSelecting st = true → 0 < remainingToSelect st →
  selectLoop (data st) (remainingToSelect st) (selected st) 0 = (s', k) →
  let more := (k <? remainingToSelect st)
              && (0 <? Z.of_nat (length (data st))) in
  after selectionEffect st =
    {| data := data st; totalRecords := totalRecords st;
       first :=
         if more && ltb (currentPage st) (totalPages st)
         then first st + rows st else first st;
       rows := rows st; selected := s';
       selectCount := selectCount st;
       remainingToSelect := remainingToSelect st - k;
       isSelecting :=
         if more then ltb (currentPage st) (totalPages st)
         else negb (remainingToSelect st <=? k) |}.
Proof.
  intros Hsel Hrem Hloop more. subst more.
  unfold after, selectionEffect. rewrite Hsel, Hloop. simpl.
  destruct (Z.leb_spec (remainingToSelect st) 0); [lia |]. simpl.
  destruct ((k <? remainingToSelect st)
            && (0 <? Z.of_nat (length (data st)))); simpl.
  - destruct (ltb (currentPage st) (totalPages st)); simpl;
      by rewrite ?Hsel.
  - destruct (remainingToSelect st <=? k); simpl; by rewrite ?Hsel.
Qed.

(** C3, as stated, fails on an empty last page: a bulk-select of 5 is
    in progress when page 10 of 10 arrives with no records; the guard
    [data.length > 0] keeps the effect from dropping the flag, so the
    bulk-select stays in progress with 5 remaining, and every further
    commit leaves the component where it is. *)
Lemma empty_last_page_keeps_selecting :
  let before := rendered awaiting_last_page in
  let st := rendered empty_last_page in
  isSelecting before = true ∧ remainingToSelect before = 5
  ∧ issued awaiting_last_page = [mkRequest (Fin 1) 10; mkRequest (Fin 10) 10]
  ∧ data st = []
  ∧ currentPage st = Fin 10 ∧ totalPages st = Fin 10
  ∧ isSelecting st = true ∧ remainingToSelect st = 5
  ∧ isSelecting (after selectionEffect st) = true
  ∧ remainingToSelect (after selectionEffect st) = 5
  ∧ commit empty_last_page = empty_last_page
  ∧ settle 100 empty_last_page = None.
Proof.
  intros before st. subst before st.
  repeat (split; [vm_compute; reflexivity |]).
  vm_compute. reflexivity.
Qed.

Lemma inProgress_on (st : State) :
  inProgress st = true → isSelecting st = true ∧ 0 < remainingToSelect st.
Proof.
  unfold inProgress. rewrite andb_true_iff, Z.ltb_lt. done.
Qed.

(** A run on a non-empty page that adds fewer ids than wanted, not before
    the last page. *)
Lemma selectionEffect_last_page (st : State) (s' : gset Z) (k : Z) :
  isSelecting st = true → 0 < remainingToSelect st →
  data st ≠ [] →
  selectLoop (data st) (remainingToSelect st) (selected st) 0 = (s', k) →
  k < remainingToSelect st →
  ltb (currentPage st) (totalPages st) = false →
  selectionEffect st =
    [SetSelected s'; SetRemainingToSelect (λ prev, prev - k);
     SetIsSelecting false]
  ∧ after selectionEffect st =
      {| data := data st; totalRecords := totalRecords st;
         first := first st; rows := rows st; selected := s';
         selectCount := selectCount st;
         remainingToSelect := remainingToSelect st - k;
         isSelecting := false |}
  ∧ 0 < remainingToSelect (after selectionEffect st)
  ∧ Z.of_nat (size s') = Z.of_nat (size (selected st)) + k.
Proof.
  intros Hsel Hrem Hne Hloop Hk Hlast.
  pose proof (selectLoop_result _ _ _ _ _ Hrem Hloop)
    as (Hrange & _ & _ & Hsize & _).
  assert ((k <? remainingToSelect st)
          && (0 <? Z.of_nat (length (data st))) = true) as Hmore.
  { apply andb_true_iff. split; [by apply Z.ltb_lt |].
    apply Z.ltb_lt. destruct (data st); [done | simpl; lia]. }
  split.
  - unfold selectionEffect. rewrite Hsel, Hloop, Hmore, Hlast.
    destruct (Z.leb_spec (remainingToSelect st) 0); [lia | reflexivity].
  - rewrite (selectionEffect_run st s' k Hsel Hrem Hloop).
    rewrite Hmore, Hlast. simpl. repeat split; [lia | exact Hsize].
Qed.

(** A run on an empty page: nothing is added and nothing but a fresh
    copy of the selection is stored. *)
Lemma selectionEffect_empty_page (st : State) (s' : gset Z) (k : Z) :
  isSelecting st = true → 0 < remainingToSelect st →
  data st = [] →
  selectLoop (data st) (remainingToSelect st) (selected st) 0 = (s', k) →
  s' = selected st ∧ k = 0
  ∧ selectionEffect st =
      [SetSelected s'; SetRemainingToSelect (λ prev, prev - k)]
  ∧ isSelecting (after selectionEffect st) = true
  ∧ remainingToSelect (after selectionEffect st) = remainingToSelect st
  ∧ selected (after selectionEffect st) = selected st
  ∧ first (after selectionEffect st) = first st.
Proof.
  intros Hsel Hrem Hnil Hloop.
  assert (s' = selected st ∧ k = 0) as [-> ->].
  { rewrite Hnil in Hloop. simpl in Hloop. by injection Hloop as <- <-. }
  split; [done |]. split; [done |].
  rewrite (selectionEffect_run st _ _ Hsel Hrem Hloop).
  unfold selectionEffect. rewrite Hsel, Hloop, Hnil. simpl.
  destruct (Z.leb_spec (remainingToSelect st) 0); [lia |].
  destruct (Z.ltb_spec 0 (remainingToSelect st)); [| lia]. simpl.
  repeat split; lia.
Qed.

Lemma setsData_settled (ups : list Update) (json : ApiResponse) :
  setsData (ups ++ fetchData_settle (Resolved json)) = true.
Proof.
  unfold setsData. rewrite existsb_app. simpl. by rewrite orb_true_r.
Qed.

(** C3, amended: when a page arrives while a bulk-select is in progress,
    the commit renders its records and runs the effect on them.  If the
    arrived page is not empty, the scan adds fewer ids than wanted and
    the current page is not before the last one, the only setter calls
    are the new selection, the new remaining count and
    [setIsSelecting(false)]: the flag drops with a positive remaining
    count, nothing signals an error, and records, total, offset and page
    size stay as they are.  If the arrived page is empty, nothing is
    added and the bulk-select stays in progress with the remaining count
    and the offset unchanged. *)
Theorem last_page_stops_silently (sys : Sys) (seq : nat) (json : ApiResponse)
    (s' : gset Z) (k : Z) :
  let arrived := commit (step sys (Settled seq (Resolved json))) in
  let st := rendered arrived in
  inProgress st = true →
  selectLoop (data st) (remainingToSelect st) (selected st) 0 = (s', k) →
  data st = data_or_empty json
  ∧ pending arrived = selectionEffect st
  ∧ (data_or_empty json ≠ [] → k < remainingToSelect st →
     ltb (currentPage st) (totalPages st) = false →
     selectionEffect st =
       [SetSelected s'; SetRemainingToSelect (λ prev, prev - k);
        SetIsSelecting false]
     ∧ after selectionEffect st =
         {| data := data st; totalRecords := totalRecords st;
            first := first st; rows := rows st; selected := s';
            selectCount := selectCount st;
            remainingToSelect := remainingToSelect st - k;
            isSelecting := false |}
     ∧ 0 < remainingToSelect (after selectionEffect st)
     ∧ Z.of_nat (size s') = Z.of_nat (size (selected st)) + k)
  ∧ (data_or_empty json = [] →
     s' = selected st ∧ k = 0
     ∧ selectionEffect st =
         [SetSelected s'; SetRemainingToSelect (λ prev, prev - k)]
     ∧ isSelecting (after selectionEffect st) = true
     ∧ remainingToSelect (after selectionEffect st) = remainingToSelect st
     ∧ selected (after selectionEffect st) = selected st
     ∧ first (after selectionEffect st) = first st).
Proof.
  intros arrived st Hprog Hloop.
  pose proof Hprog as [Hsel Hrem]%inProgress_on.
  assert (data st = data_or_empty json) as Hdata.
  { subst st arrived. unfold commit, step, enqueue.
    cbn [rendered pending]. rewrite apply_updates_app. reflexivity. }
  split; [exact Hdata |]. split.
  - subst st arrived. unfold commit, step, enqueue.
    cbn [rendered pending]. unfold selectionDepsChanged.
    by rewrite setsData_settled.
  - split.
    + intros Hne Hk Hlast. apply selectionEffect_last_page; try done.
      by rewrite Hdata.
    + intros Hnil. apply selectionEffect_empty_page; try done.
      by rewrite Hdata.
Qed.

Lemma last_page_stops_silently_witness :
  let arrived :=
    commit (step awaiting_only_page (Settled 0 (Resolved only_page))) in
  let st := rendered arrived in
  inProgress st = true
  ∧ data st = page [1; 2; 3; 4; 5]
  ∧ isSelecting (after selectionEffect st) = false
  ∧ remainingToSelect (after selectionEffect st) = 5
  ∧ size (selected (after selectionEffect st)) = 5%nat.
Proof.
  intros arrived st.
  destruct (last_page_stops_silently awaiting_only_page 0 only_page
              (list_to_set [1; 2; 3; 4; 5]) 5)
    as (Hdata & _ & Hlast & _);
    [vm_compute; reflexivity | vm_compute; reflexivity |].
  destruct Hlast as (_ & Hafter & _);
    [discriminate | vm_compute; reflexivity | vm_compute; reflexivity |].
  fold arrived in Hafter. fold st in Hafter. rewrite Hafter.
  split; [vm_compute; reflexivity |]. split; [exact Hdata |].
  vm_compute. repeat split.
Defined.




(** The scan of one run, in the words of the selection set: the first
    not yet selected ids of the page, in page order, are added until as
    many as wanted are in; the remaining count drops by their number, and
    the flag drops when nothing remains. *)
Lemma selectionEffect_scans_in_order (st : State) :
  isSelecting st = true → 0 < remainingToSelect st →
  let added :=
    take (Z.to_nat (remainingToSelect st))
      (unselectedInOrder (data st) (selected st)) in
  let st' := after selectionEffect st in
  selected st' = selected st ∪ list_to_set added
  ∧ remainingToSelect st' = remainingToSelect st - Z.of_nat (length added)
  ∧ (remainingToSelect st' ≤ 0 → isSelecting st' = false).
Proof.
  intros Hsel Hrem added st'. subst st'.
  pose proof (selectLoop_takes_first_unselected (data st)
                (remainingToSelect st) (selected st) 0) as Hloop.
  simpl in Hloop. rewrite Z.sub_0_r, Z.add_0_l in Hloop.
  fold added in Hloop.
  rewrite (selectionEffect_run st _ _ Hsel Hrem Hloop). simpl.
  repeat split. intros Hdone.
  destruct (Z.ltb_spec (Z.of_nat (length added)) (remainingToSelect st));
    [lia |]. simpl.
  destruct (Z.leb_spec (remainingToSelect st) (Z.of_nat (length added)));
    [done | lia].
Qed.

(** ** The bulk-select across pages, replayed *)

(** C2: a bulk-select that the page on screen cannot satisfy is not
    continued on the next page.  Page 1 (ids 1..10) of a 20-record
    collection is on screen, rows 1..5 are ticked, and Apply is pressed
    with count 10.  The first run of the effect selects 6..10, leaves 5
    remaining and moves the offset to page 2.  The commit that issues the
    request for page 2 re-runs the effect (its dependencies [first],
    [remainingToSelect] and [selected] have changed) on the records of
    page 1, which are still on screen: nothing is new, the current page
    is now 2 of 2, and the flag drops.  When page 2 (ids 11..20) arrives,
    no bulk-select is in progress: five ids were added, not ten, and none
    of page 2. *)
Theorem select_10_stops_after_page_1 :
  let once := run [Apply; Commit; Commit] five_ticked in
  let again := run [Commit] once in
  let idle := run [Commit] again in
  let arrived :=
    run [Settled 1 (response ids_11_20 (Some 20)); Commit] idle in
  rendered five_ticked =
    {| data := page ids_1_10; totalRecords := 20; first := 0; rows := 10;
       selected := list_to_set [1; 2; 3; 4; 5]; selectCount := 10;
       remainingToSelect := 0; isSelecting := false |}
  ∧ pending five_ticked = []
  ∧ selected (rendered once) = list_to_set ids_1_10
  ∧ remainingToSelect (rendered once) = 5
  ∧ first (rendered once) = 10
  ∧ isSelecting (rendered once) = true
  ∧ issued once = [mkRequest (Fin 1) 10; mkRequest (Fin 2) 10]
  ∧ data (rendered once) = page ids_1_10
  ∧ currentPage (rendered once) = Fin 2
  ∧ totalPages (rendered once) = Fin 2
  ∧ isSelecting (rendered again) = false
  ∧ settle 4 (step five_ticked Apply) = Some idle
  ∧ settle 2 (step idle (Settled 1 (response ids_11_20 (Some 20))))
    = Some arrived
  ∧ data (rendered arrived) = page ids_11_20
  ∧ isSelecting (rendered arrived) = false
  ∧ remainingToSelect (rendered arrived) = 5
  ∧ selected (rendered arrived) = list_to_set ids_1_10
  ∧ size (selected (rendered arrived)) = 10%nat
  ∧ 11 ∉ selected (rendered arrived).
Proof.
  intros once again idle arrived. subst once again idle arrived.
  repeat (split; [vm_compute; reflexivity |]).
  assert (selected
            (rendered
               (run [Settled 1 (response ids_11_20 (Some 20)); Commit]
                  (run [Commit]
                     (run [Commit]
                        (run [Apply; Commit; Commit] five_ticked)))))
          = list_to_set ids_1_10) as -> by (vm_compute; reflexivity).
  unfold ids_1_10. simpl. set_solver.
Qed.

(** * Further properties *)

(** ** Row and header checkboxes *)

(** X1: [toggleSelect] flips the membership of the clicked id and of no
    other, changes the number of selected ids by exactly one, and a second
    click on the same row restores the selection. *)
Theorem toggleSelect_flips (i : Z) (st : State) :
  let st1 := after (toggleSelect i) st in
  (i ∈ selected st1 ↔ i ∉ selected st)
  ∧ (∀ j, j ≠ i → j ∈ selected st1 ↔ j ∈ selected st)
  ∧ Z.of_nat (size (selected st1)) =
      Z.of_nat (size (selected st))
      + (if bool_decide (i ∈ selected st) then -1 else 1)
  ∧ selected (after (toggleSelect i) st1) = selected st.
Proof.
  intros st1. subst st1. unfold after at 1 2 3 5. unfold toggleSelect at 1 2 3 5.
  case_bool_decide as Hin; simpl.
  - split; [set_solver |]. split; [set_solver |]. split.
    + pose proof (size_union_alt {[i]} (selected st)) as Hsize.
      rewrite size_singleton in Hsize.
      replace ({[i]} ∪ selected st) with (selected st) in Hsize
        by set_solver.
      lia.
    + unfold after, toggleSelect. simpl.
      rewrite bool_decide_eq_false_2 by set_solver. simpl.
      symmetry. by apply union_difference_singleton_L.
  - split; [set_solver |]. split; [set_solver |]. split.
    + rewrite size_union by set_solver. rewrite size_singleton. lia.
    + unfold after, toggleSelect. simpl.
      rewrite bool_decide_eq_true_2 by set_solver. simpl. set_solver.
Qed.

(** X2: on a non-empty page a click on the header checkbox flips its
    checked state, and afterwards every row checkbox of the page shows that
    new state; on an empty page the header checkbox stays unchecked and
    the selection is unchanged. *)
Theorem toggleSelectAll_flips_header (st : State) :
  let st1 := after toggleSelectAll st in
  (data st ≠ [] →
     headerChecked st1 = negb (headerChecked st)
     ∧ ∀ item, item ∈ data st → rowChecked item st1 = headerChecked st1)
  ∧ (data st = [] →
     headerChecked st1 = false ∧ selected st1 = selected st).
Proof.
  intros st1. subst st1. rewrite toggleSelectAll_once.
  change headerChecked with allSelected. split.
  - intros Hne. destruct (allSelected st) eqn:Hall; simpl.
    + apply allSelected_true in Hall as [_ Hsub].
      assert (allSelected
                {| data := data st; totalRecords := totalRecords st;
                   first := first st; rows := rows st;
                   selected := selected st ∖ pageIds (data st);
                   selectCount := selectCount st;
                   remainingToSelect := remainingToSelect st;
                   isSelecting := isSelecting st |} = false) as Hoff.
      { apply not_true_is_false. intros [_ Hsub1]%allSelected_true.
        simpl in Hsub1.
        assert (pageIds (data st) = ∅) as Hnone by set_solver.
        by apply pageIds_nil_iff in Hnone. }
      rewrite Hoff. split; [done |].
      intros item Hitem. unfold rowChecked. simpl.
      apply bool_decide_eq_false_2.
      assert (id item ∈ pageIds (data st)) as Hid
        by (apply elem_of_pageIds; eauto).
      set_solver.
    + assert (allSelected
                {| data := data st; totalRecords := totalRecords st;
                   first := first st; rows := rows st;
                   selected := selected st ∪ pageIds (data st);
                   selectCount := selectCount st;
                   remainingToSelect := remainingToSelect st;
                   isSelecting := isSelecting st |} = true) as Hon.
      { apply allSelected_true. simpl. split; [done | set_solver]. }
      rewrite Hon. split; [done |].
      intros item Hitem. unfold rowChecked. simpl.
      apply bool_decide_eq_true_2.
      assert (id item ∈ pageIds (data st)) as Hid
        by (apply elem_of_pageIds; eauto).
      set_solver.
  - intros Hnil. unfold allSelected. rewrite Hnil. simpl.
    split; [done |]. unfold pageIds. simpl. set_solver.
Qed.

Lemma toggleSelectAll_flips_header_witness :
  let st :=
    {| data := page [1; 2]; totalRecords := 2; first := 0; rows := 10;
       selected := {[1]}; selectCount := 0;
       remainingToSelect := 0; isSelecting := false |} in
  headerChecked (after toggleSelectAll st) = negb (headerChecked st)
  ∧ headerChecked (after toggleSelectAll initialState) = false.
Proof.
  intros st.
  destruct (toggleSelectAll_flips_header st) as [Hflip _].
  destruct (toggleSelectAll_flips_header initialState) as [_ Hempty].
  split.
  - apply Hflip. discriminate.
  - apply Hempty. reflexivity.
Defined.

(** ** Pages and offsets *)

(** X3: for a positive page size and an offset below [2 ^ 53] in
    magnitude, the page number of an offset is the one page [p] whose
    range [(p - 1) * size .. p * size - 1] holds the offset. *)
Theorem toPage_range (offset size p : Z) :
  0 < size → Z.abs offset < 2 ^ 53 →
  toPage offset size = Fin p ↔ (p - 1) * size ≤ offset < p * size.
Proof.
  intros Hsize Hsafe. rewrite toPage_Fin by lia.
  pose proof (Z.div_mod offset size ltac:(lia)) as Hdm.
  pose proof (Z.mod_pos_bound offset size Hsize) as Hr.
  split.
  - intros [= <-]. nia.
  - intros Hrange. f_equal.
    assert (offset / size = p - 1) as ->; [| lia].
    symmetry. apply (Z.div_unique offset size (p - 1) (offset - size * (p - 1)));
      [left |]; nia.
Qed.

Lemma toPage_range_witness :
  toPage 25 10 = Fin 3 ↔ (3 - 1) * 10 ≤ 25 < 3 * 10.
Proof. apply toPage_range; [lia | vm_compute; reflexivity]. Defined.

(** X4: for a positive page size and a non-empty collection of fewer
    than [2 ^ 53] records, every record offset lies on a page between 1
    and [totalPages], and the last record lies on page [totalPages]
    exactly. *)
Theorem last_record_on_last_page (st : State) (offset : Z) :
  0 < rows st → 0 ≤ offset < totalRecords st → totalRecords st < 2 ^ 53 →
  geb (toPage offset (rows st)) (Fin 1) = true
  ∧ leb (toPage offset (rows st)) (totalPages st) = true
  ∧ toPage (totalRecords st - 1) (rows st) = totalPages st.
Proof.
  intros Hrows Hoff Hsafe.
  rewrite !toPage_Fin, totalPages_Fin by lia. unfold geb. simpl.
  pose proof (ceilZ_least (totalRecords st) (rows st)
                (ceilZ (totalRecords st) (rows st)) Hrows) as [Hup _].
  specialize (Hup ltac:(lia)).
  pose proof (ceilZ_least (totalRecords st) (rows st)
                (ceilZ (totalRecords st) (rows st) - 1) Hrows) as [_ Hlow].
  assert (¬ totalRecords st ≤
            (ceilZ (totalRecords st) (rows st) - 1) * rows st) as Hstrict
    by (intros Hle; apply Hlow in Hle; lia).
  set (c := ceilZ (totalRecords st) (rows st)) in *.
  pose proof (Z.div_mod offset (rows st) ltac:(lia)) as Hdm.
  pose proof (Z.mod_pos_bound offset (rows st) Hrows) as Hr.
  pose proof (Z.div_mod (totalRecords st - 1) (rows st) ltac:(lia)) as Hdm'.
  pose proof (Z.mod_pos_bound (totalRecords st - 1) (rows st) Hrows) as Hr'.
  rewrite !Z.leb_le. split; [nia |]. split; [nia |].
  f_equal. nia.
Qed.

Lemma last_record_on_last_page_witness :
  let st := rendered resized_then_fresh in
  geb (toPage 39 (rows st)) (Fin 1) = true
  ∧ leb (toPage 39 (rows st)) (totalPages st) = true
  ∧ toPage (totalRecords st - 1) (rows st) = totalPages st.
Proof.
  intros st.
  apply (last_record_on_last_page st 39); vm_compute;
    [reflexivity | | reflexivity].
  split; [discriminate | reflexivity].
Defined.

(** X5: when the paginator keeps the page size, and the requested offset
    and the stored total are below [2 ^ 53] in magnitude, a page change
    is accepted exactly when the requested offset is not negative and the
    first record of its page exists; an accepted offset is then below
    [totalRecords + rows]. *)
Theorem pageChange_same_size (e : PageChangeEvent) (st : State) :
  0 < rows st → e_rows e = rows st →
  Z.abs (e_first e) < 2 ^ 53 → Z.abs (totalRecords st) < 2 ^ 53 →
  (pageChangeAccepted e st = true
   ↔ 0 ≤ e_first e ∧ e_first e / rows st * rows st < totalRecords st)
  ∧ (pageChangeAccepted e st = true →
     e_first e < totalRecords st + rows st).
Proof.
  intros Hrows Hsame Hfirst Htotal.
  pose proof (pageChangeAccepted_iff e st ltac:(lia) Hrows Hfirst Htotal)
    as Hiff.
  rewrite Hsame in Hiff.
  pose proof (ceilZ_least (totalRecords st) (rows st)
                (e_first e / rows st) Hrows) as Hleast.
  pose proof (Z.div_mod (e_first e) (rows st) ltac:(lia)) as Hdm.
  pose proof (Z.mod_pos_bound (e_first e) (rows st) Hrows) as Hr.
  assert (pageChangeAccepted e st = true
          ↔ 0 ≤ e_first e
            ∧ e_first e / rows st * rows st < totalRecords st) as Hacc.
  { rewrite Hiff. split.
    - intros [Hlo Hhi]. split; [nia |].
      destruct (Z.lt_ge_cases (e_first e / rows st * rows st)
                  (totalRecords st)) as [| Hge]; [done |].
      apply Hleast in Hge. lia.
    - intros [Hlo Hhi]. split; [nia |].
      destruct (Z.le_gt_cases (e_first e / rows st + 1)
                  (ceilZ (totalRecords st) (rows st))) as [| Hgt]; [done |].
      assert (ceilZ (totalRecords st) (rows st) ≤ e_first e / rows st)
        as Hle by lia.
      apply Hleast in Hle. lia. }
  split; [exact Hacc |].
  intros [Hlo Hhi]%Hacc. nia.
Qed.

Lemma pageChange_same_size_witness :
  let st := rendered resized_then_fresh in
  pageChangeAccepted {| e_first := 20; e_rows := 20 |} st = true
  ∧ pageChangeAccepted {| e_first := 40; e_rows := 20 |} st = false.
Proof.
  intros st.
  destruct (pageChange_same_size {| e_first := 20; e_rows := 20 |} st)
    as [[_ Hyes] _]; [reflexivity | reflexivity | reflexivity | reflexivity |].
  destruct (pageChange_same_size {| e_first := 40; e_rows := 20 |} st)
    as [[Hno _] _]; [reflexivity | reflexivity | reflexivity | reflexivity |].
  split.
  - apply Hyes. vm_compute. split; [discriminate | reflexivity].
  - apply not_true_is_false. intros [_ Hlt]%Hno.
    vm_compute in Hlt. discriminate Hlt.
Defined.

(** X6: after any decoded response that does not report a negative total,
    the stored total is positive, so with a positive page size there is at
    least one page and a change to the first page is always accepted, also
    for an empty collection. *)
Theorem first_page_always_accepted (json : ApiResponse) (st : State) :
  0 < rows st →
  (∀ p t, pagination json = Some p → total p = Some t → 0 ≤ t) →
  let st' := apply_updates (fetchData_settle (Resolved json)) st in
  0 < totalRecords st'
  ∧ leb (Fin 1) (totalPages st') = true
  ∧ pageChangeAccepted {| e_first := 0; e_rows := rows st |} st' = true.
Proof.
  intros Hrows Htotal st'. subst st'. rewrite fetchData_settle_resolved.
  assert (0 < total_or_100 json) as Hpos.
  { unfold total_or_100. destruct (pagination json) as [p |]; [| lia].
    destruct (total p) as [t |] eqn:Ht; [| lia].
    specialize (Htotal p t eq_refl Ht).
    destruct (Z.eqb_spec t 0); lia. }
  split; [exact Hpos |].
  assert (leb (Fin 1)
            (ceil_div (total_or_100 json) (rows st)) = true) as Hpages.
  { unfold ceil_div. destruct (Z.eqb_spec (rows st) 0); [lia |].
    simpl. apply Z.leb_le. by apply divD_ceil_pos. }
  split; [exact Hpages |].
  unfold pageChangeAccepted, totalPages. simpl.
  rewrite toPage_zero by lia. by rewrite Hpages.
Qed.

Lemma first_page_always_accepted_witness :
  let empty :=
    {| resp_data := Some [];
       pagination :=
         Some {| total := Some 0; current_page := Some 1;
                 total_pages := Some 0; limit := Some 10 |} |} in
  let st' := apply_updates (fetchData_settle (Resolved empty)) initialState in
  0 < totalRecords st'
  ∧ leb (Fin 1) (totalPages st') = true
  ∧ pageChangeAccepted {| e_first := 0; e_rows := 10 |} st' = true.
Proof.
  intros empty.
  apply (first_page_always_accepted empty initialState).
  - reflexivity.
  - intros p t [= <-] [= <-]. lia.
Defined.

(** ** Requests *)

(** X7: choosing a page size stores it and goes back to offset 0; the
    records on screen and the selection stay until a response arrives.
    The commit sends one request, for page 1 with the new size, unless the
    component already was at offset 0 with that size, in which case
    nothing is sent. *)
Theorem rowsPerPage_refetches (sys : Sys) (n : Z) :
  pending sys = [] → n ≠ 0 →
  let old := rendered sys in
  let sys' := commit (step sys (RowsPerPage n)) in
  rows (rendered sys') = n
  ∧ first (rendered sys') = 0
  ∧ data (rendered sys') = data old
  ∧ selected (rendered sys') = selected old
  ∧ issued sys' =
      issued sys
      ++ (if (first old =? 0) && (rows old =? n) then []
          else [{| req_page := Fin 1; req_limit := n |}]).
Proof.
  intros Hrest Hn old sys'. subst old sys'.
  unfold commit, step, enqueue, handleRowsPerPage. simpl.
  rewrite Hrest. simpl. repeat split.
  unfold fetchDepsChanged, fetchEffect, currentPage, value. simpl.
  rewrite toPage_zero by done.
  destruct (first (rendered sys) =? 0), (rows (rendered sys) =? n); reflexivity.
Qed.

Lemma rowsPerPage_refetches_witness :
  issued (commit (step mount (RowsPerPage 20))) =
    [{| req_page := Fin 1; req_limit := 10 |};
     {| req_page := Fin 1; req_limit := 20 |}]
  ∧ issued (commit (step mount (RowsPerPage 10))) =
    [{| req_page := Fin 1; req_limit := 10 |}].
Proof.
  destruct (rowsPerPage_refetches mount 20) as (_ & _ & _ & _ & Hnew);
    [reflexivity | discriminate |].
  destruct (rowsPerPage_refetches mount 10) as (_ & _ & _ & _ & Hsame);
    [reflexivity | discriminate |].
  split; [exact Hnew | exact Hsame].
Defined.

(** X8: an accepted page change stores the requested offset and size and
    the commit sends one request for exactly the requested page with the
    requested size (none if both are the ones already in effect); a
    rejected page change leaves the component as it is and sends
    nothing. *)
Theorem pageChange_requests_page (sys : Sys) (e : PageChangeEvent) :
  pending sys = [] →
  let old := rendered sys in
  let sys' := commit (step sys (PageChange e)) in
  (pageChangeAccepted e old = true →
     first (rendered sys') = e_first e
     ∧ rows (rendered sys') = e_rows e
     ∧ issued sys' =
         issued sys
         ++ (if (first old =? e_first e) && (rows old =? e_rows e) then []
             else [{| req_page := toPage (e_first e) (e_rows e);
                      req_limit := e_rows e |}]))
  ∧ (pageChangeAccepted e old = false →
     step sys (PageChange e) = sys
     ∧ rendered sys' = old ∧ issued sys' = issued sys ∧ pending sys' = []).
Proof.
  intros Hrest old sys'. subst old sys'. split; intros Hacc.
  - unfold commit, step, enqueue, handlePageChange. rewrite Hacc. simpl.
    rewrite Hrest. simpl. repeat split.
    unfold fetchDepsChanged, fetchEffect, currentPage, value. simpl.
    destruct (first (rendered sys) =? e_first e),
      (rows (rendered sys) =? e_rows e); reflexivity.
  - assert (step sys (PageChange e) = sys) as Hsame.
    { simpl. unfold handlePageChange. rewrite Hacc. apply enqueue_nil. }
    rewrite Hsame. split; [done |].
    unfold commit. rewrite Hrest. simpl.
    unfold selectionDepsChanged, fetchDepsChanged. simpl.
    rewrite !Z.eqb_refl, eqb_reflx. simpl.
    by rewrite app_nil_r.
Qed.

Lemma pageChange_requests_page_witness :
  let sys := commit (step resized_then_fresh
                       (PageChange {| e_first := 20; e_rows := 20 |})) in
  first (rendered sys) = 20
  ∧ issued sys =
      issued resized_then_fresh
      ++ [{| req_page := Fin 2; req_limit := 20 |}].
Proof.
  intros sys. subst sys.
  destruct (pageChange_requests_page resized_then_fresh
              {| e_first := 20; e_rows := 20 |}) as [Hacc _];
    [reflexivity |].
  destruct Hacc as (Hfirst & _ & Hissued); [reflexivity |].
  split; [exact Hfirst | exact Hissued].
Defined.

(** X9: row checkboxes, the header checkbox, the Clear button and the
    count input never send a request and never touch the records, the
    total, the offset, the page size, the remaining count or the selecting
    flag. *)
Theorem selection_events_never_fetch (sys : Sys) (ev : Event) :
  selectionEvent ev = true → pending sys = [] →
  let old := rendered sys in
  let new := rendered (commit (step sys ev)) in
  issued (commit (step sys ev)) = issued sys
  ∧ data new = data old ∧ totalRecords new = totalRecords old
  ∧ first new = first old ∧ rows new = rows old
  ∧ remainingToSelect new = remainingToSelect old
  ∧ isSelecting new = isSelecting old.
Proof.
  intros Hev Hrest old new. subst old new.
  assert (∀ ups,
            first (apply_updates ups (rendered sys)) = first (rendered sys) →
            rows (apply_updates ups (rendered sys)) = rows (rendered sys) →
            issued (commit (enqueue ups sys)) = issued sys) as Hquiet.
  { intros ups Hfirst Hrows. unfold commit, enqueue. simpl.
    rewrite Hrest. simpl. unfold fetchDepsChanged.
    rewrite Hfirst, Hrows, !Z.eqb_refl. simpl. by rewrite app_nil_r. }
  destruct ev; try discriminate Hev; simpl.
  - unfold toggleSelect.
    destruct (bool_decide (i ∈ selected (rendered sys)));
      (split; [by apply Hquiet |]); rewrite Hrest; done.
  - unfold toggleSelectAll.
    destruct (allSelected (rendered sys));
      (split; [by apply Hquiet |]); rewrite Hrest; done.
  - split; [by apply Hquiet |]. rewrite Hrest. done.
  - split; [by apply Hquiet |]. rewrite Hrest. done.
Qed.

Lemma selection_events_never_fetch_witness :
  issued (commit (step resized_then_fresh ToggleAll)) =
    issued resized_then_fresh.
Proof.
  apply (selection_events_never_fetch resized_then_fresh ToggleAll);
    reflexivity.
Defined.

(** ** What holds in every state the component can reach *)

Lemma inProgress_false (st : State) :
  inProgress st = false ↔ isSelecting st = false ∨ remainingToSelect st ≤ 0.
Proof.
  unfold inProgress. rewrite andb_false_iff, Z.ltb_ge. reflexivity.
Qed.

Lemma inProgress_true (st : State) :
  inProgress st = true ↔ isSelecting st = true ∧ 0 < remainingToSelect st.
Proof.
  unfold inProgress. rewrite andb_true_iff, Z.ltb_lt. reflexivity.
Qed.

Lemma selectionEffect_not_inProgress (st : State) :
  inProgress st = false → selectionEffect st = [].
Proof. intros Hidle. by apply selectionEffect_idle, inProgress_false. Qed.

Lemma selectionEffect_inProgress (st : State) :
  inProgress st = true → setsSelected (selectionEffect st) = true.
Proof.
  intros [Hsel Hrem]%inProgress_true. unfold selectionEffect.
  rewrite Hsel. destruct (Z.leb_spec (remainingToSelect st) 0); [lia |].
  simpl. by destruct (selectLoop _ _ _ _).
Qed.

Lemma setsSelected_app (ups1 ups2 : list Update) :
  setsSelected (ups1 ++ ups2) = setsSelected ups1 || setsSelected ups2.
Proof. unfold setsSelected. apply existsb_app. Qed.

Lemma selectionDepsChanged_false (ups : list Update) (old new : State) :
  selectionDepsChanged ups old new = false →
  setsSelected ups = false
  ∧ isSelecting old = isSelecting new
  ∧ remainingToSelect old = remainingToSelect new.
Proof.
  unfold selectionDepsChanged. rewrite !orb_false_iff, !negb_false_iff.
  intros ((((((_ & _) & Hflag) & Hrem) & _) & Hsel) & _).
  split; [exact Hsel |]. split; [by apply eqb_prop | by apply Z.eqb_eq].
Qed.

Lemma enqueue_restless (ups : list Update) (sys : Sys) :
  restless sys → restless (enqueue ups sys).
Proof.
  intros [Hidle | Hqueued]; [by left | right]. simpl.
  by rewrite setsSelected_app, Hqueued.
Qed.

Lemma commit_restless (sys : Sys) : restless sys → restless (commit sys).
Proof.
  intros Hinv. unfold restless, commit. simpl.
  set (new := apply_updates (pending sys) (rendered sys)).
  destruct (selectionDepsChanged (pending sys) (rendered sys) new) eqn:Hdeps.
  - destruct (inProgress new) eqn:Hnew; [right | by left].
    by apply selectionEffect_inProgress.
  - left. apply selectionDepsChanged_false in Hdeps as (Hnone & Hflag & Hrem).
    destruct Hinv as [Hidle | Hqueued]; [| congruence].
    unfold inProgress in *. by rewrite <- Hflag, <- Hrem.
Qed.

Lemma step_restless (sys : Sys) (ev : Event) :
  restless sys → restless (step sys ev).
Proof.
  intros Hinv. destruct ev; simpl;
    (apply enqueue_restless || apply commit_restless); exact Hinv.
Qed.

Lemma run_restless (evs : list Event) (sys : Sys) :
  restless sys → restless (run evs sys).
Proof.
  revert sys. induction evs as [| ev evs IH]; intros sys Hinv; [done |].
  simpl. apply IH, step_restless, Hinv.
Qed.

Lemma commit_pending_idle (sys : Sys) :
  inProgress (apply_updates (pending sys) (rendered sys)) = false →
  pending (commit sys) = [].
Proof.
  intros Hidle. unfold commit. simpl.
  destruct (selectionDepsChanged _ _ _); [| reflexivity].
  by apply selectionEffect_not_inProgress.
Qed.

(** X10: whatever the user does and whatever responses arrive, in whatever
    order, a mounted component that has come to rest (no setter call is
    queued) has no bulk-select in progress.  A page that arrives later
    therefore never finds a bulk-select to continue. *)
Theorem at_rest_no_bulk_select (evs : list Event) :
  let sys := run evs mount in
  pending sys = [] →
  inProgress (rendered sys) = false
  ∧ ∀ seq json,
      pending (commit (step sys (Settled seq (Resolved json)))) = []
      ∧ selected (rendered (commit (step sys (Settled seq (Resolved json)))))
        = selected (rendered sys).
Proof.
  intros sys Hrest.
  assert (inProgress (rendered sys) = false) as Hidle.
  { destruct (run_restless evs mount) as [Hidle | Hqueued];
      [by left | done |].
    fold sys in Hqueued. rewrite Hrest in Hqueued. discriminate Hqueued. }
  split; [exact Hidle |]. intros seq json. split.
  - apply commit_pending_idle. simpl. rewrite Hrest. exact Hidle.
  - simpl. rewrite Hrest. reflexivity.
Qed.

Lemma at_rest_no_bulk_select_witness :
  let idle := run [Apply; Commit; Commit; Commit] five_ticked in
  inProgress (rendered idle) = false.
Proof.
  intros idle.
  apply (at_rest_no_bulk_select
           [Settled 0 (response ids_1_10 (Some 20)); Commit;
            ToggleRow 1; Commit; ToggleRow 2; Commit; ToggleRow 3; Commit;
            ToggleRow 4; Commit; ToggleRow 5; Commit;
            InputCount (Some 10); Commit;
            Apply; Commit; Commit; Commit]).
  reflexivity.
Defined.







(** ** One run of the selection effect, continued *)

(** X12: a run of the effect during a bulk-select never deselects
    anything and only adds ids of the page on screen; the number of ids it
    adds is exactly the amount by which the remaining count drops; the
    records, the total, the page size and the count input are not
    written. *)
Theorem selectionEffect_only_adds (st : State) :
  inProgress st = true →
  let st' := after selectionEffect st in
  selected st ⊆ selected st'
  ∧ selected st' ⊆ selected st ∪ pageIds (data st)
  ∧ Z.of_nat (size (selected st')) + remainingToSelect st' =
      Z.of_nat (size (selected st)) + remainingToSelect st
  ∧ data st' = data st ∧ totalRecords st' = totalRecords st
  ∧ rows st' = rows st ∧ selectCount st' = selectCount st.
Proof.
  intros [Hsel Hpos]%inProgress_true st'. subst st'.
  destruct (selectLoop (data st) (remainingToSelect st) (selected st) 0)
    as [s' k] eqn:Hloop.
  pose proof (selectLoop_result _ _ _ _ _ Hpos Hloop)
    as (_ & Hsub & Hsup & Hsize & _).
  rewrite (selectionEffect_run st s' k Hsel Hpos Hloop). simpl.
  repeat split; try done. lia.
Qed.

Lemma selectionEffect_only_adds_witness :
  let st := rendered (commit selected_first_page) in
  selected st ⊆ selected (after selectionEffect st).
Proof.
  intros st.
  apply (selectionEffect_only_adds st). reflexivity.
Defined.


(** ** Apply, end to end *)

Lemma selectionDepsChanged_start (ups : list Update) (old new : State) :
  inProgress old = false → inProgress new = true →
  selectionDepsChanged ups old new = true.
Proof.
  intros Hold [Hsel Hpos]%inProgress_true.
  destruct (selectionDepsChanged ups old new) eqn:Hdeps; [done |].
  apply selectionDepsChanged_false in Hdeps as (_ & Hflag & Hrem).
  apply inProgress_false in Hold as [Hoff | Hzero]; [congruence | lia].
Qed.

Lemma selectionDepsChanged_selected (ups : list Update) (old new : State) :
  setsSelected ups = true → selectionDepsChanged ups old new = true.
Proof.
  intros Hsel. unfold selectionDepsChanged. rewrite Hsel.
  by rewrite !orb_true_r.
Qed.

Lemma settle_more (fuel : nat) (sys : Sys) :
  pending sys ≠ [] → settle (S fuel) sys = settle fuel (commit sys).
Proof. intros Hbusy. simpl. by destruct (pending sys). Qed.

Lemma settle_done (fuel : nat) (sys : Sys) :
  pending sys = [] → settle (S fuel) sys = Some sys.
Proof. intros Hrest. simpl. by rewrite Hrest. Qed.

Lemma selectLoop_enough (items : list Artwork) (n : Z) (s : gset Z) :
  0 < n → n ≤ Z.of_nat (length (unselectedInOrder items s)) →
  selectLoop items n s 0 =
    (s ∪ list_to_set (take (Z.to_nat n) (unselectedInOrder items s)), n).
Proof.
  intros Hn Hfresh. rewrite selectLoop_takes_first_unselected.
  rewrite Z.sub_0_r, length_take. f_equal. lia.
Qed.

(** X13: when the component is at rest and the page on screen holds at
    least [n] records that are not selected, Apply with count [n > 0]
    comes to rest after two commits with exactly the first [n]
    unselected records of the page, in page order, added to the
    selection: the flag is down, nothing remains, the records, the total,
    the offset and the page size are the same and no request was
    sent. *)
Theorem apply_within_page (sys : Sys) :
  let st := rendered sys in
  let n := selectCount st in
  let fresh := unselectedInOrder (data st) (selected st) in
  pending sys = [] → inProgress st = false →
  0 < n → n ≤ Z.of_nat (length fresh) →
  ∃ sys',
    settle 3 (step sys Apply) = Some sys'
    ∧ pending sys' = []
    ∧ selected (rendered sys') =
        selected st ∪ list_to_set (take (Z.to_nat n) fresh)
    ∧ length (take (Z.to_nat n) fresh) = Z.to_nat n
    ∧ isSelecting (rendered sys') = false
    ∧ remainingToSelect (rendered sys') = 0
    ∧ data (rendered sys') = data st
    ∧ totalRecords (rendered sys') = totalRecords st
    ∧ first (rendered sys') = first st
    ∧ rows (rendered sys') = rows st
    ∧ issued sys' = issued sys.
Proof.
  intros st n fresh Hrest Hidle Hn Hfresh.
  assert (length (take (Z.to_nat n) fresh) = Z.to_nat n) as Hlen
    by (rewrite length_take; lia).
  destruct sys as [st0 pend iss]. simpl in st, Hrest. subst pend st.
  set (s' := selected st0 ∪ list_to_set (take (Z.to_nat n) fresh)).
  set (new1 := {| data := data st0; totalRecords := totalRecords st0;
                  first := first st0; rows := rows st0;
                  selected := selected st0; selectCount := 0;
                  remainingToSelect := n; isSelecting := true |}).
  set (new2 := {| data := data st0; totalRecords := totalRecords st0;
                  first := first st0; rows := rows st0;
                  selected := s'; selectCount := 0;
                  remainingToSelect := 0; isSelecting := false |}).
  assert (step {| rendered := st0; pending := []; issued := iss |} Apply
          = {| rendered := st0;
               pending := [SetRemainingToSelect (value n);
                           SetIsSelecting true; SetSelectCount 0];
               issued := iss |}) as ->.
  { simpl. unfold enqueue, handleSelectN. simpl.
    destruct (Z.leb_spec (selectCount st0) 0); [lia | reflexivity]. }
  assert (selectionEffect new1 =
            [SetSelected s'; SetRemainingToSelect (λ prev, prev - n);
             SetIsSelecting false]) as Heffect.
  { unfold selectionEffect. cbn [isSelecting remainingToSelect data selected new1].
    rewrite (selectLoop_enough _ _ _ Hn Hfresh). fold fresh. fold s'.
    destruct (Z.leb_spec n 0); [lia |].
    rewrite Z.ltb_irrefl, Z.leb_refl. reflexivity. }
  assert (inProgress new1 = true) as Hprog
    by (apply inProgress_true; split; [reflexivity | exact Hn]).
  rewrite settle_more by discriminate.
  assert (commit {| rendered := st0;
                    pending := [SetRemainingToSelect (value n);
                                SetIsSelecting true; SetSelectCount 0];
                    issued := iss |}
          = {| rendered := new1; pending := selectionEffect new1;
               issued := iss |}) as ->.
  { unfold commit. cbn [rendered pending issued].
    change (apply_updates _ st0) with new1.
    rewrite (selectionDepsChanged_start _ st0 new1 Hidle Hprog).
    unfold fetchDepsChanged. cbn [first rows new1].
    rewrite !Z.eqb_refl. simpl. by rewrite app_nil_r. }
  rewrite Heffect. rewrite settle_more by discriminate.
  assert (commit {| rendered := new1;
                    pending := [SetSelected s';
                                SetRemainingToSelect (λ prev, prev - n);
                                SetIsSelecting false];
                    issued := iss |}
          = {| rendered := new2; pending := []; issued := iss |}) as ->.
  { unfold commit. cbn [rendered pending issued].
    assert (apply_updates
              [SetSelected s'; SetRemainingToSelect (λ prev, prev - n);
               SetIsSelecting false] new1 = new2) as ->.
    { unfold apply_updates, new1, new2. simpl. by rewrite Z.sub_diag. }
    rewrite selectionDepsChanged_selected by done.
    unfold fetchDepsChanged. cbn [first rows new1 new2].
    rewrite !Z.eqb_refl. simpl. by rewrite app_nil_r. }
  exists {| rendered := new2; pending := []; issued := iss |}.
  split; [by rewrite settle_done |]. repeat split. exact Hlen.
Qed.

Lemma apply_within_page_witness :
  let sys :=
    run [Settled 0 (response ids_1_10 (Some 20)); Commit;
         ToggleRow 2; Commit; InputCount (Some 3); Commit] mount in
  ∃ sys', settle 3 (step sys Apply) = Some sys'
          ∧ selected (rendered sys') = {[2; 1; 3; 4]}
          ∧ isSelecting (rendered sys') = false
          ∧ issued sys' = issued sys.
Proof.
  intros sys.
  destruct (apply_within_page sys)
    as (sys' & Hdone & _ & Hselected & _ & Hflag & _ & _ & _ & _ & _ & Hlog);
    [reflexivity | reflexivity | reflexivity | vm_compute; discriminate |].
  exists sys'. split; [exact Hdone |].
  split; [rewrite Hselected; vm_compute; reflexivity |].
  split; [exact Hflag | exact Hlog].
Defined.

(** X14: when the component is at rest with no records on screen, Apply
    with a positive count never comes to rest: the first commit raises the
    flag, and from then on every commit re-runs the effect and leaves the
    component exactly as it is, with the flag up, the count unchanged and
    nothing selected anew, until an event from outside arrives. *)
Theorem apply_on_empty_table_never_rests (sys : Sys) :
  pending sys = [] → inProgress (rendered sys) = false →
  data (rendered sys) = [] → 0 < selectCount (rendered sys) →
  let spinning := commit (step sys Apply) in
  inProgress (rendered spinning) = true
  ∧ remainingToSelect (rendered spinning) = selectCount (rendered sys)
  ∧ selected (rendered spinning) = selected (rendered sys)
  ∧ issued spinning = issued sys
  ∧ commit spinning = spinning
  ∧ ∀ fuel, settle fuel (step sys Apply) = None.
Proof.
  intros Hrest Hidle Hempty Hn spinning.
  destruct sys as [st0 pend iss]. simpl in Hrest, Hidle, Hempty, Hn.
  subst pend.
  set (n := selectCount st0) in *.
  set (new1 := {| data := data st0; totalRecords := totalRecords st0;
                  first := first st0; rows := rows st0;
                  selected := selected st0; selectCount := 0;
                  remainingToSelect := n; isSelecting := true |}).
  set (loop := [SetSelected (selected st0);
                SetRemainingToSelect (λ prev, prev - 0)]).
  assert (step {| rendered := st0; pending := []; issued := iss |} Apply
          = {| rendered := st0;
               pending := [SetRemainingToSelect (value n);
                           SetIsSelecting true; SetSelectCount 0];
               issued := iss |}) as Hstep.
  { simpl. unfold enqueue, handleSelectN. simpl. fold n.
    destruct (Z.leb_spec n 0); [lia | reflexivity]. }
  assert (inProgress new1 = true) as Hprog
    by (apply inProgress_true; split; [reflexivity | exact Hn]).
  assert (selectionEffect new1 = loop) as Heffect.
  { unfold selectionEffect.
    cbn [isSelecting remainingToSelect data selected new1].
    rewrite Hempty. simpl.
    destruct (Z.leb_spec n 0); [lia |]. simpl.
    rewrite andb_false_r. reflexivity. }
  assert (spinning = {| rendered := new1; pending := loop; issued := iss |})
    as Hspin.
  { subst spinning. rewrite Hstep. unfold commit.
    cbn [rendered pending issued].
    change (apply_updates _ st0) with new1.
    rewrite (selectionDepsChanged_start _ st0 new1 Hidle Hprog).
    unfold fetchDepsChanged. cbn [first rows new1].
    rewrite !Z.eqb_refl, Heffect. simpl. by rewrite app_nil_r. }
  assert (commit spinning = spinning) as Hfix.
  { rewrite Hspin. unfold commit. cbn [rendered pending issued].
    assert (apply_updates loop new1 = new1) as ->.
    { unfold apply_updates, loop, new1. simpl. by rewrite Z.sub_0_r. }
    rewrite selectionDepsChanged_selected by done.
    unfold fetchDepsChanged. rewrite !Z.eqb_refl, Heffect. simpl.
    by rewrite app_nil_r. }
  rewrite Hspin at 1 2 3 4. cbn [rendered issued].
  split; [exact Hprog |]. split; [reflexivity |]. split; [reflexivity |].
  split; [reflexivity |]. split; [exact Hfix |].
  assert (∀ fuel, settle fuel spinning = None) as Hnever.
  { induction fuel as [| fuel IH]; [reflexivity |].
    rewrite settle_more; [by rewrite Hfix |].
    rewrite Hspin. discriminate. }
  intros [| fuel]; [reflexivity |].
  rewrite settle_more; [apply Hnever |].
  rewrite Hstep. discriminate.
Qed.

Lemma apply_on_empty_table_never_rests_witness :
  let sys := run [InputCount (Some 5); Commit] mount in
  settle 1000 (step sys Apply) = None.
Proof.
  intros sys.
  destruct (apply_on_empty_table_never_rests sys)
    as (_ & _ & _ & _ & _ & Hnever);
    [reflexivity | reflexivity | reflexivity | reflexivity |].
  apply Hnever.
Defined.

(** ** The cascade of effect runs *)












(** ** Clear and select all *)

(** X17: at rest, Clear followed by a click on the header checkbox leaves
    exactly the ids of the page on screen selected, whatever was selected
    before; the component is at rest again, no request was sent, and on a
    non-empty page the header checkbox is checked. *)
Theorem clear_then_select_page (sys : Sys) :
  pending sys = [] → inProgress (rendered sys) = false →
  let sys' := run [Clear; Commit; ToggleAll; Commit] sys in
  selected (rendered sys') = pageIds (data (rendered sys))
  ∧ data (rendered sys') = data (rendered sys)
  ∧ pending sys' = []
  ∧ issued sys' = issued sys
  ∧ (data (rendered sys) ≠ [] → headerChecked (rendered sys') = true).
Proof.
  intros Hrest Hidle sys'. subst sys'.
  destruct sys as [st0 pend iss]. simpl in Hrest, Hidle. subst pend.
  set (cleared := {| data := data st0; totalRecords := totalRecords st0;
                     first := first st0; rows := rows st0;
                     selected := ∅; selectCount := selectCount st0;
                     remainingToSelect := remainingToSelect st0;
                     isSelecting := isSelecting st0 |}).
  set (all := {| data := data st0; totalRecords := totalRecords st0;
                 first := first st0; rows := rows st0;
                 selected := ∅ ∪ pageIds (data st0);
                 selectCount := selectCount st0;
                 remainingToSelect := remainingToSelect st0;
                 isSelecting := isSelecting st0 |}).
  assert (run [Clear; Commit]
            {| rendered := st0; pending := []; issued := iss |}
          = {| rendered := cleared; pending := []; issued := iss |}) as Hclear.
  { simpl. unfold commit, enqueue. cbn [rendered pending issued app].
    change (apply_updates _ st0) with cleared.
    rewrite selectionDepsChanged_selected by done.
    rewrite selectionEffect_not_inProgress by exact Hidle.
    unfold fetchDepsChanged. cbn [first rows cleared].
    rewrite !Z.eqb_refl. simpl. by rewrite app_nil_r. }
  assert (allSelected cleared = false) as Hnone.
  { apply not_true_is_false. intros [Hne Hsub]%allSelected_true.
    simpl in Hne, Hsub.
    assert (pageIds (data st0) = ∅) as Hemp by set_solver.
    by apply pageIds_nil_iff in Hemp. }
  assert (run [Clear; Commit; ToggleAll; Commit]
            {| rendered := st0; pending := []; issued := iss |}
          = {| rendered := all; pending := []; issued := iss |}) as ->.
  { change (run [Clear; Commit; ToggleAll; Commit] ?s)
      with (run [ToggleAll; Commit] (run [Clear; Commit] s)).
    rewrite Hclear. simpl. unfold commit, enqueue, toggleSelectAll.
    cbn [rendered pending issued app]. rewrite Hnone.
    assert (apply_updates
              [SetSelected
                 (fold_left (λ s item, {[id item]} ∪ s) (data cleared)
                    (selected cleared))] cleared = all) as ->.
    { unfold apply_updates. simpl. by rewrite add_each. }
    rewrite selectionDepsChanged_selected by done.
    rewrite selectionEffect_not_inProgress by exact Hidle.
    unfold fetchDepsChanged. cbn [first rows cleared all].
    rewrite !Z.eqb_refl. simpl. by rewrite app_nil_r. }
  cbn [rendered pending issued all selected data].
  split; [set_solver |]. repeat split.
  intros Hne. change headerChecked with allSelected.
  apply allSelected_true. simpl. split; [done | set_solver].
Qed.

Lemma clear_then_select_page_witness :
  selected (rendered (run [Clear; Commit; ToggleAll; Commit]
                        resized_then_fresh))
  = pageIds (page (ids_1_10 ++ ids_11_20)).
Proof.
  apply (clear_then_select_page resized_then_fresh); reflexivity.
Defined.
